(** * zeus-core: route extraction and snapshot reconciliation

    A shallow embedding of [src/index.ts] (route extraction engine) and
    [src/output.ts] (snapshot writer) of zeus-core, with the properties of
    the specification stated and settled over it.

    Conventions of the embedding.
    - A JavaScript string is a [string]; each [ascii] stands for one code
      unit in the range 0..255.  All patterns of the source only name ASCII
      characters; the classes [\s], [\w], [\d] and [trim] are given on that
      range (white space: 9-13, 32 and 160).
    - The module-level [RegExp] objects carrying the [g] flag are stateful:
      their [lastIndex] survives between calls.  That state is threaded
      explicitly ([LastIndex]).
    - JavaScript's [undefined] is [None]; [null] is a value of its own. *)

From Stdlib Require Import Ascii String DecimalString List Bool Arith ZArith Lia.
From stdpp Require Import base strings list gmap.
Import ListNotations.
Local Open Scope string_scope.
Local Open Scope nat_scope.

(** ** Characters and strings of the runtime *)

Module Js.

Definition code (c : ascii) : nat := nat_of_ascii c.

Definition between (lo hi : nat) (c : ascii) : bool :=
  (lo <=? code c) && (code c <=? hi).

(** [\d] *)
Definition isDigit (c : ascii) : bool := between 48 57 c.

(** [\w], that is [[A-Za-z0-9_]] *)
Definition isWord (c : ascii) : bool :=
  between 97 122 c || between 65 90 c || isDigit c || (code c =? 95).

(** [\s], and the characters removed by [trim]: WhiteSpace and
    LineTerminator of the language, restricted to the 8-bit range. *)
Definition isSpace (c : ascii) : bool :=
  between 9 13 c || (code c =? 32) || (code c =? 160).

Definition lowerChar (c : ascii) : ascii :=
  if between 65 90 c || (between 192 222 c && negb (code c =? 215))
  then ascii_of_nat (code c + 32) else c.

(** Upper-casing of one code unit.  The three 8-bit characters whose
    upper case is not an 8-bit character (181, 223, 255) are left as they
    are; the source upper-cases only captured verbs, which are ASCII
    letters. *)
Definition upperChar (c : ascii) : ascii :=
  if between 97 122 c || (between 224 254 c && negb (code c =? 247))
  then ascii_of_nat (code c - 32) else c.

Fixpoint mapString (f : ascii -> ascii) (s : string) : string :=
  match s with
  | EmptyString => EmptyString
  | String c r => String (f c) (mapString f r)
  end.

Definition toLowerCase : string -> string := mapString lowerChar.
Definition toUpperCase : string -> string := mapString upperChar.

(** [s.startsWith(p)] *)
Fixpoint startsWith (p s : string) : bool :=
  match p, s with
  | EmptyString, _ => true
  | String a p', String b s' => if Ascii.eqb a b then startsWith p' s' else false
  | String _ _, EmptyString => false
  end.

(** [s.includes(p)] *)
Fixpoint includes (p s : string) : bool :=
  startsWith p s ||
  match s with
  | EmptyString => false
  | String _ s' => includes p s'
  end.

(** [s.endsWith(p)] *)
Definition endsWith (p s : string) : bool :=
  let n := String.length s in
  let k := String.length p in
  (k <=? n) && String.eqb (substring (n - k) k s) p.

(** [s.slice(0, n)] for [0 <= n] *)
Definition slice0 (n : nat) (s : string) : string := substring 0 n s.

Fixpoint dropSpace (s : string) : string :=
  match s with
  | String c r => if isSpace c then dropSpace r else s
  | EmptyString => EmptyString
  end.

(** [s.trim()] *)
Definition trim (s : string) : string :=
  String.rev (dropSpace (String.rev (dropSpace s))).

(** [s.split(sep)] for a one-character separator *)
Fixpoint splitGo (sep : ascii) (cur : string) (s : string) : list string :=
  match s with
  | EmptyString => [String.rev cur]
  | String c r =>
      if Ascii.eqb c sep then String.rev cur :: splitGo sep EmptyString r
      else splitGo sep (String c cur) r
  end.

Definition split (sep : ascii) (s : string) : list string :=
  splitGo sep EmptyString s.

(** [l.join(sep)] *)
Fixpoint join (sep : string) (l : list string) : string :=
  match l with
  | [] => ""
  | [x] => x
  | x :: r => x +:+ sep +:+ join sep r
  end.

(** Truthiness of a string: the empty string is falsy. *)
Definition truthy (s : string) : bool := negb (String.eqb s "").

(** [Number(s)] for a string of decimal digits. *)
Fixpoint digitsGo (acc : nat) (s : string) : nat :=
  match s with
  | EmptyString => acc
  | String c r => digitsGo (10 * acc + (code c - 48)) r
  end.

Definition Number (s : string) : nat := digitsGo 0 s.

(** The double quote character, and a way to write texts that contain it:
    [dq s] is [s] with every [~] replaced by a double quote. *)
Definition dquote : ascii := ascii_of_nat 34.
Definition dq : string -> string :=
  mapString (fun c => if Ascii.eqb c "~" then dquote else c).

End Js.

(** ** Regular expressions of the runtime

    A backtracking matcher in continuation-passing style, after the
    semantics of the language standard, for the constructs the source
    uses.  A quantified atom never carries a capture group in the source,
    so captures are not reset between iterations. *)

Module RegExp.

Inductive Regex : Type :=
| Eps
| Chr (p : ascii -> bool)
| Seq (r1 r2 : Regex)
| Alt (r1 r2 : Regex)
| Star (greedy : bool) (r : Regex)
| Group (n : nat) (r : Regex)
| LookAhead (r : Regex)
| WordBoundary
| InputStart.

Definition Plus (greedy : bool) (r : Regex) : Regex := Seq r (Star greedy r).
(** [r?] (greedy) *)
Definition Opt (r : Regex) : Regex := Alt r Eps.

Fixpoint seq (l : list Regex) : Regex :=
  match l with
  | [] => Eps
  | [r] => r
  | r :: l' => Seq r (seq l')
  end.

Fixpoint alt (l : list Regex) : Regex :=
  match l with
  | [] => Eps
  | [r] => r
  | r :: l' => Alt r (alt l')
  end.

Definition chr (c : ascii) : Regex := Chr (Ascii.eqb c).
(** One character under the [i] flag: both sides are canonicalised. *)
Definition chrI (c : ascii) : Regex :=
  Chr (fun d => Ascii.eqb (Js.upperChar c) (Js.upperChar d) && (Js.code d <? 128)).

Fixpoint lit (s : string) : Regex :=
  match s with
  | EmptyString => Eps
  | String c EmptyString => chr c
  | String c r => Seq (chr c) (lit r)
  end.

Fixpoint litI (s : string) : Regex :=
  match s with
  | EmptyString => Eps
  | String c EmptyString => chrI c
  | String c r => Seq (chrI c) (litI r)
  end.

Definition anyChar : Regex := Chr (fun _ => true).   (* [\s\S] *)
Definition space : Regex := Chr Js.isSpace.           (* \s *)
Definition word : Regex := Chr Js.isWord.             (* \w *)
Definition digit : Regex := Chr Js.isDigit.           (* \d *)
Definition oneOf (s : string) : Regex :=
  Chr (fun c => existsb (Ascii.eqb c) (list_ascii_of_string s)).
Definition noneOf (s : string) : Regex :=
  Chr (fun c => negb (existsb (Ascii.eqb c) (list_ascii_of_string s))).

Record MatchState : Type := mkState {
  endIndex : nat;
  captures : list (nat * (nat * nat))
}.

Definition Continuation : Type := MatchState -> option MatchState.

Section Matcher.
Variable input : list ascii.

Definition charAt (i : nat) : option ascii := nth_error input i.

Definition isWordAt (i : nat) : bool :=
  match charAt i with Some c => Js.isWord c | None => false end.

(** [\b] holds at [e] when exactly one of the characters at [e-1] and
    [e] is a word character. *)
Definition atBoundary (e : nat) : bool :=
  let a := match e with 0 => false | S e' => isWordAt e' end in
  xorb a (isWordAt e).

(** The iterations of a starred atom whose matcher is [m1].  An iteration
    that consumes nothing is rejected, so each one moves [endIndex] forward
    and their number is bounded by the characters left: the fuel given by
    [m] below is never used up ([repeatMatcher_fuel]). *)
Fixpoint repeatMatcher (m1 : Continuation -> MatchState -> option MatchState)
    (greedy : bool) (k : Continuation) (fuel : nat) (x : MatchState)
  : option MatchState :=
  match fuel with
  | 0 => k x
  | S fuel' =>
      let again :=
        m1 (fun y => if endIndex y =? endIndex x then None
                     else repeatMatcher m1 greedy k fuel' y) in
      if greedy then
        match again x with Some z => Some z | None => k x end
      else
        match k x with Some z => Some z | None => again x end
  end.

Fixpoint m (r : Regex) (k : Continuation) (x : MatchState) : option MatchState :=
  match r with
  | Eps => k x
  | Chr p =>
      match charAt (endIndex x) with
      | Some c => if p c then k (mkState (S (endIndex x)) (captures x)) else None
      | None => None
      end
  | Seq r1 r2 => m r1 (m r2 k) x
  | Alt r1 r2 =>
      match m r1 k x with
      | Some z => Some z
      | None => m r2 k x
      end
  | Star greedy r1 =>
      repeatMatcher (m r1) greedy k (S (length input - endIndex x)) x
  | Group n r1 =>
      m r1 (fun y => k (mkState (endIndex y)
                          ((n, (endIndex x, endIndex y)) :: captures y))) x
  | LookAhead r1 =>
      match m r1 Some x with
      | Some y => k (mkState (endIndex x) (captures y))
      | None => None
      end
  | WordBoundary => if atBoundary (endIndex x) then k x else None
  | InputStart => if endIndex x =? 0 then k x else None
  end.

(** First index [i >= from] at which the pattern matches. *)
Fixpoint search (r : Regex) (fuel from : nat) : option (nat * MatchState) :=
  match m r Some (mkState from []) with
  | Some y => Some (from, y)
  | None =>
      match fuel with
      | 0 => None
      | S fuel' => search r fuel' (S from)
      end
  end.
End Matcher.

(** The array returned by a successful [exec]: the index of the match,
    the index after it, and the text of each group (group 0 is the whole
    match); a group that did not take part is [None]. *)
Record ExecArray : Type := mkExec {
  index : nat;
  lastEnd : nat;
  group : nat -> option string
}.

Fixpoint lookupCapture (n : nat) (l : list (nat * (nat * nat))) : option (nat * nat) :=
  match l with
  | [] => None
  | (n', se) :: l' => if n =? n' then Some se else lookupCapture n l'
  end.

Definition mkExecArray (s : string) (i : nat) (y : MatchState) : ExecArray :=
  mkExec i (endIndex y)
    (fun n =>
       match n with
       | 0 => Some (substring i (endIndex y - i) s)
       | _ => match lookupCapture n (captures y) with
              | Some (a, b) => Some (substring a (b - a) s)
              | None => None
              end
       end).

(** The first match at or after [from]; [None] when [from] is past the
    end of the string or nothing matches. *)
Definition matchFrom (r : Regex) (s : string) (from : nat) : option ExecArray :=
  let n := String.length s in
  if n <? from then None
  else match search (list_ascii_of_string s) r (n - from) from with
       | Some (i, y) => Some (mkExecArray s i y)
       | None => None
       end.

(** [r.exec(s)] on a regular expression with the [g] flag whose
    [lastIndex] is [li]: the result and the new [lastIndex]. *)
Definition execGlobal (r : Regex) (s : string) (li : nat) : option ExecArray * nat :=
  match matchFrom r s li with
  | Some a => (Some a, lastEnd a)
  | None => (None, 0)
  end.

(** [r.test(s)] on a regular expression without the [g] flag. *)
Definition test (r : Regex) (s : string) : bool :=
  match matchFrom r s 0 with Some _ => true | None => false end.

(** [s.match(r)] for [r] with the [g] flag: [lastIndex] is first set to 0,
    all matches are collected, an empty match advances by one, and
    [lastIndex] is 0 afterwards.  [None] is the [null] of "no match". *)
Fixpoint matchAllGo (r : Regex) (s : string) (fuel from : nat) : list string :=
  match fuel with
  | 0 => []
  | S fuel' =>
      match matchFrom r s from with
      | None => []
      | Some a =>
          let next := if lastEnd a =? index a then S (lastEnd a) else lastEnd a in
          match group a 0 with
          | Some w => w :: matchAllGo r s fuel' next
          | None => matchAllGo r s fuel' next
          end
      end
  end.

Definition matchAll (r : Regex) (s : string) : option (list string) :=
  match matchAllGo r s (S (String.length s)) 0 with
  | [] => None
  | l => Some l
  end.

(** [s.replace(r, by)] for [r] without the [g] flag: the first match only. *)
Definition replaceFirst (r : Regex) (by_ : string) (s : string) : string :=
  match matchFrom r s 0 with
  | Some a =>
      substring 0 (index a) s +:+ by_ +:+
      substring (lastEnd a) (String.length s - lastEnd a) s
  | None => s
  end.

End RegExp.

(** ** [src/index.ts]: patterns *)

Import RegExp.

Definition HTTP_METHODS : list string := ["GET"; "POST"; "PUT"; "DELETE"].

(** The patterns are quoted in the comments with [Q] for the class of the
    three quote characters (back quote, double quote, apostrophe). *)
Definition quoteChars : string := String "`" (String Js.dquote (String "'" "")).
Definition quote : Regex := oneOf quoteChars.          (* [Q] *)
Definition notQuote : Regex := noneOf quoteChars.      (* [^Q] *)

(** [/\b(get|post|put|delete)\s*\(\s*[Q]([^Q]+)[Q]/gi] *)
Definition ROUTE_METHOD_REGEX : Regex :=
  seq [ WordBoundary;
        Group 1 (alt [litI "get"; litI "post"; litI "put"; litI "delete"]);
        Star true space; chrI "("; Star true space;
        quote; Group 2 (Plus true notQuote); quote ].

(** [/\broute\s*\(\s*\{[\s\S]*?method\s*:\s*[Q](GET|POST|PUT|DELETE)[Q][\s\S]*?url\s*:\s*[Q]([^Q]+)[Q][\s\S]*?\}\s*\)/gi] *)
Definition FASTIFY_ROUTE_REGEX : Regex :=
  seq [ WordBoundary; litI "route"; Star true space; chrI "("; Star true space;
        chrI "{"; Star false anyChar;
        litI "method"; Star true space; chrI ":"; Star true space;
        quote; Group 1 (alt [litI "GET"; litI "POST"; litI "PUT"; litI "DELETE"]); quote;
        Star false anyChar;
        litI "url"; Star true space; chrI ":"; Star true space;
        quote; Group 2 (Plus true notQuote); quote;
        Star false anyChar; chrI "}"; Star true space; chrI ")" ].

(** [/@(Get|Post|Put|Delete)\s*\(\s*[Q]([^Q]{0,})[Q]?\s*\)/g], where
    [{0,}] is the star of the source *)
Definition NEST_DECORATOR_REGEX : Regex :=
  seq [ chr "@";
        Group 1 (alt [lit "Get"; lit "Post"; lit "Put"; lit "Delete"]);
        Star true space; chr "("; Star true space;
        quote; Group 2 (Star true notQuote); Opt quote;
        Star true space; chr ")" ].

(** [/@param\s+\{([^}]+)\}\s+(\w+)/g] *)
Definition PARAM_JSDOC_REGEX : Regex :=
  seq [ lit "@param"; Plus true space; chr "{";
        Group 1 (Plus true (noneOf "}")); chr "}";
        Plus true space; Group 2 (Plus true word) ].

(** The look-ahead [(?=@|\*\/)] *)
Definition beforeTagOrEnd : Regex := LookAhead (Alt (chr "@") (lit "*/")).

(** [/@responseExample\s+(\d{3})\s+([\s\S]*?)(?=@|\*\/)/g] *)
Definition RESPONSE_EXAMPLE_REGEX : Regex :=
  seq [ lit "@responseExample"; Plus true space;
        Group 1 (seq [digit; digit; digit]); Plus true space;
        Group 2 (Star false anyChar); beforeTagOrEnd ].

(** [/@requestBody\s+([\s\S]*?)(?=@|\*\/)/g] *)
Definition REQUEST_SCHEMA_REGEX : Regex :=
  seq [ lit "@requestBody"; Plus true space;
        Group 1 (Star false anyChar); beforeTagOrEnd ].

(** [/\/\*\*[\s\S]*?\*\//g] *)
Definition COMMENT_BLOCK_REGEX : Regex :=
  seq [ lit "/**"; Star false anyChar; lit "*/" ].

(** [/^\s*\*\s?/], the decoration stripped from each line of a block *)
Definition LINE_PREFIX_REGEX : Regex :=
  seq [ InputStart; Star true space; chr "*"; Opt space ].

(** [/\bexpress\b|\bRouter\b/] *)
Definition EXPRESS_MARKER_REGEX : Regex :=
  Alt (seq [WordBoundary; lit "express"; WordBoundary])
      (seq [WordBoundary; lit "Router"; WordBoundary]).

(** [/\bfastify\b/] *)
Definition FASTIFY_MARKER_REGEX : Regex :=
  seq [WordBoundary; lit "fastify"; WordBoundary].

(** [/@Controller\b/] *)
Definition NEST_MARKER_REGEX : Regex :=
  seq [lit "@Controller"; WordBoundary].

(** ** JSON values of the runtime *)

Module Json.

(** A number is kept as the decimal [m * 10^e] it was written as (the
    rounding to a double is not modelled).  An object lists its own
    properties in enumeration order. *)
#[local] Unset Elimination Schemes.
Inductive JsonValue : Type :=
| JNull
| JBool (b : bool)
| JNumber (m e : Z)
| JString (s : string)
| JArray (items : list JsonValue)
| JObject (fields : list (string * JsonValue)).
#[local] Set Elimination Schemes.

Definition ofNat (n : nat) : JsonValue := JNumber (Z.of_nat n) 0.



(** *** [JSON.stringify(v)] without indentation *)

Definition decimal (n : N) : string :=
  NilEmpty.string_of_uint (N.to_uint n).

Fixpoint digitsToN (acc : N) (s : string) : N :=
  match s with
  | EmptyString => acc
  | String c r => digitsToN (10 * acc + N.of_nat (Js.code c - 48))%N r
  end.

Fixpoint zeros (n : nat) : string :=
  match n with 0 => "" | S n' => String "0" (zeros n') end.

(** The text of a finite number, after the number-to-string rules of
    the language, for the decimal [m * 10^e] with [m] free of trailing
    zeros. *)
Definition numberToString (m e : Z) : string :=
  if (m =? 0)%Z then "0" else
  let sign := if (m <? 0)%Z then "-" else "" in
  let digits := decimal (Z.abs_N m) in
  let k := Z.of_nat (String.length digits) in
  let n := (k + e)%Z in
  sign +:+
  (if ((k <=? n) && (n <=? 21))%Z then digits +:+ zeros (Z.to_nat (n - k))
   else if ((0 <? n) && (n <=? 21))%Z then
     substring 0 (Z.to_nat n) digits +:+ "." +:+
     substring (Z.to_nat n) (Z.to_nat (k - n)) digits
   else if ((-6 <? n) && (n <=? 0))%Z then
     "0." +:+ zeros (Z.to_nat (- n)) +:+ digits
   else
     let ex := (n - 1)%Z in
     let exs := (if (ex <? 0)%Z then "-" else "+") +:+ decimal (Z.abs_N ex) in
     if (k =? 1)%Z then digits +:+ "e" +:+ exs
     else substring 0 1 digits +:+ "." +:+
          substring 1 (Z.to_nat (k - 1)) digits +:+ "e" +:+ exs).

Definition hexDigit (n : nat) : ascii :=
  if n <? 10 then ascii_of_nat (48 + n) else ascii_of_nat (87 + n).

Definition bs : ascii := ascii_of_nat 92.

Definition escapeChar (c : ascii) : string :=
  let n := Js.code c in
  if n =? 34 then String bs (String Js.dquote "")
  else if n =? 92 then String bs (String bs "")
  else if n =? 8 then String bs "b"
  else if n =? 12 then String bs "f"
  else if n =? 10 then String bs "n"
  else if n =? 13 then String bs "r"
  else if n =? 9 then String bs "t"
  else if n <? 32 then
    String bs ("u00" +:+ String (hexDigit (n / 16)) (String (hexDigit (n mod 16)) ""))
  else String c "".

Fixpoint escapeString (s : string) : string :=
  match s with
  | EmptyString => ""
  | String c r => escapeChar c +:+ escapeString r
  end.

Definition quoteString (s : string) : string :=
  String Js.dquote (escapeString s) +:+ String Js.dquote "".

Fixpoint stringify (v : JsonValue) : string :=
  match v with
  | JNull => "null"
  | JBool true => "true"
  | JBool false => "false"
  | JNumber m e => numberToString m e
  | JString s => quoteString s
  | JArray items =>
      "[" +:+ Js.join "," (List.map stringify items) +:+ "]"
  | JObject fields =>
      "{" +:+ Js.join ","
                (List.map (fun kv => quoteString (fst kv) +:+ ":" +:+ stringify (snd kv))
                          fields) +:+ "}"
  end.

(** *** [JSON.parse(text)]

    A recursive-descent reader of the JSON grammar; [None] stands for the
    [SyntaxError] thrown on any other text. *)

(** An array index: the canonical decimal text of a number.  Such keys
    are enumerated first, in ascending order. *)
Definition arrayIndex (k : string) : option N :=
  match k with
  | EmptyString => None
  | String c r =>
      if forallb Js.isDigit (list_ascii_of_string k)
         && (negb (Ascii.eqb c "0") || String.eqb r "")
         && (digitsToN 0 k <? 4294967295)%N
      then Some (digitsToN 0 k) else None
  end.

Fixpoint replaceField (k : string) (v : JsonValue) (fields : list (string * JsonValue))
  : option (list (string * JsonValue)) :=
  match fields with
  | [] => None
  | (k', v') :: r =>
      if String.eqb k k' then Some ((k, v) :: r)
      else match replaceField k v r with
           | Some r' => Some ((k', v') :: r')
           | None => None
           end
  end.

Fixpoint insertIndexed (i : N) (k : string) (v : JsonValue)
    (fields : list (string * JsonValue)) : list (string * JsonValue) :=
  match fields with
  | [] => [(k, v)]
  | (k', v') :: r =>
      match arrayIndex k' with
      | Some j => if (j <? i)%N then (k', v') :: insertIndexed i k v r
                  else (k, v) :: fields
      | None => (k, v) :: fields
      end
  end.

(** Defining the property [k] of an object under construction. *)
Definition defineField (k : string) (v : JsonValue) (fields : list (string * JsonValue))
  : list (string * JsonValue) :=
  match replaceField k v fields with
  | Some fields' => fields'
  | None =>
      match arrayIndex k with
      | Some i => insertIndexed i k v fields
      | None => (fields ++ [(k, v)])%list
      end
  end.

Definition isJsonSpace (c : ascii) : bool :=
  let n := Js.code c in (n =? 32) || (n =? 9) || (n =? 10) || (n =? 13).

Fixpoint skipWs (s : string) : string :=
  match s with
  | String c r => if isJsonSpace c then skipWs r else s
  | EmptyString => EmptyString
  end.

Definition hexValue (c : ascii) : option nat :=
  if Js.isDigit c then Some (Js.code c - 48)
  else if Js.between 97 102 c then Some (Js.code c - 87)
  else if Js.between 65 70 c then Some (Js.code c - 55)
  else None.

(** The four hexadecimal digits of a [\u] escape. *)
Definition readHex4 (s : string) : option (nat * string) :=
  match s with
  | String a (String b (String c (String d r))) =>
      match hexValue a, hexValue b, hexValue c, hexValue d with
      | Some x, Some y, Some z, Some w => Some (((x * 16 + y) * 16 + z) * 16 + w, r)
      | _, _, _, _ => None
      end
  | _ => None
  end.

(** The characters of a string literal after its opening quote; [acc] is
    the text read so far, reversed.  An escape naming a code unit above
    255 lies outside the 8-bit strings of the model: its six characters
    are kept as they are. *)
Fixpoint readString (acc : string) (s : string) : option (string * string) :=
  match s with
  | EmptyString => None
  | String c r =>
      if Js.code c =? 34 then Some (String.rev acc, r)
      else if Js.code c <? 32 then None
      else if Js.code c =? 92 then
        match r with
        | String e r' =>
            let simple (x : nat) := readString (String (ascii_of_nat x) acc) r' in
            if Ascii.eqb e "b" then simple 8
            else if Ascii.eqb e "f" then simple 12
            else if Ascii.eqb e "n" then simple 10
            else if Ascii.eqb e "r" then simple 13
            else if Ascii.eqb e "t" then simple 9
            else if Ascii.eqb e "/" then simple 47
            else if Js.code e =? 92 then simple 92
            else if Js.code e =? 34 then simple 34
            else if Ascii.eqb e "u" then
              match r' with
              | String h1 (String h2 (String h3 (String h4 r''))) =>
                  match readHex4 r' with
                  | Some (n, _) =>
                      if n <? 256 then readString (String (ascii_of_nat n) acc) r''
                      else readString
                             (String h4 (String h3 (String h2 (String h1
                                (String "u" (String bs acc)))))) r''
                  | None => None
                  end
              | _ => None
              end
            else None
        | EmptyString => None
        end
      else readString (String c acc) r
  end.

Fixpoint readDigits (acc : string) (s : string) : string * string :=
  match s with
  | String c r => if Js.isDigit c then readDigits (String c acc) r else (String.rev acc, s)
  | EmptyString => (String.rev acc, s)
  end.

Fixpoint stripZeros (fuel : nat) (m e : Z) : Z * Z :=
  match fuel with
  | 0 => (m, e)
  | S fuel' =>
      if (m =? 0)%Z then (0%Z, 0%Z)
      else if (m mod 10 =? 0)%Z then stripZeros fuel' (m / 10)%Z (e + 1)%Z
      else (m, e)
  end.

(** A number literal: [-? int frac? exp?]. *)
Definition readNumber (s : string) : option (JsonValue * string) :=
  let '(neg, s1) :=
    match s with
    | String "-" r => (true, r)
    | _ => (false, s)
    end in
  let '(ip, s2) := readDigits "" s1 in
  if String.eqb ip "" then None
  else if (1 <? String.length ip) && Js.startsWith "0" ip then None
  else
    let frac :=
      match s2 with
      | String "." r =>
          let '(fp, s3) := readDigits "" r in
          if String.eqb fp "" then None else Some (fp, s3)
      | _ => Some ("", s2)
      end in
    match frac with
    | None => None
    | Some (fp, s3) =>
        let expo :=
          match s3 with
          | String c r =>
              if Ascii.eqb c "e" || Ascii.eqb c "E" then
                let '(eneg, r1) :=
                  match r with
                  | String "-" r' => (true, r')
                  | String "+" r' => (false, r')
                  | _ => (false, r)
                  end in
                let '(ep, s4) := readDigits "" r1 in
                if String.eqb ep "" then None
                else Some (if eneg then (- Z.of_N (digitsToN 0 ep))%Z
                           else Z.of_N (digitsToN 0 ep), s4)
              else Some (0%Z, s3)
          | EmptyString => Some (0%Z, s3)
          end in
        match expo with
        | None => None
        | Some (ex, s4) =>
            let mag := Z.of_N (digitsToN 0 (ip +:+ fp)) in
            let '(m, e) := stripZeros (String.length (ip +:+ fp))
                             (if neg then (- mag)%Z else mag)
                             (ex - Z.of_nat (String.length fp))%Z in
            Some (JNumber m e, s4)
        end
    end.

(** One value, then the members of an array or of an object; the fuel
    bounds the number of calls by the length of the text. *)
Fixpoint readValue (fuel : nat) (s : string) : option (JsonValue * string) :=
  match fuel with
  | 0 => None
  | S fuel' =>
      let readItems :=
        fix readItems (n : nat) (acc : list JsonValue) (s : string)
          : option (JsonValue * string) :=
          match n with
          | 0 => None
          | S n' =>
              match readValue fuel' s with
              | None => None
              | Some (v, r) =>
                  match skipWs r with
                  | String "," r' => readItems n' (acc ++ [v])%list r'
                  | String "]" r' => Some (JArray (acc ++ [v])%list, r')
                  | _ => None
                  end
              end
          end in
      let readMembers :=
        fix readMembers (n : nat) (acc : list (string * JsonValue)) (s : string)
          : option (JsonValue * string) :=
          match n with
          | 0 => None
          | S n' =>
              match skipWs s with
              | String q r =>
                  if Js.code q =? 34 then
                    match readString "" r with
                    | None => None
                    | Some (k, r1) =>
                        match skipWs r1 with
                        | String ":" r2 =>
                            match readValue fuel' r2 with
                            | None => None
                            | Some (v, r3) =>
                                match skipWs r3 with
                                | String "," r4 => readMembers n' (defineField k v acc) r4
                                | String "}" r4 => Some (JObject (defineField k v acc), r4)
                                | _ => None
                                end
                            end
                        | _ => None
                        end
                    end
                  else None
              | EmptyString => None
              end
          end in
      match skipWs s with
      | EmptyString => None
      | String c r =>
          if Js.code c =? 34 then
            match readString "" r with
            | Some (x, r') => Some (JString x, r')
            | None => None
            end
          else if Ascii.eqb c "[" then
            match skipWs r with
            | String "]" r' => Some (JArray [], r')
            | _ => readItems (String.length s) [] r
            end
          else if Ascii.eqb c "{" then
            match skipWs r with
            | String "}" r' => Some (JObject [], r')
            | _ => readMembers (String.length s) [] r
            end
          else if Js.startsWith "null" (String c r) then Some (JNull, substring 4 (String.length r) (String c r))
          else if Js.startsWith "true" (String c r) then Some (JBool true, substring 4 (String.length r) (String c r))
          else if Js.startsWith "false" (String c r) then Some (JBool false, substring 5 (String.length r) (String c r))
          else readNumber (String c r)
      end
  end.

Definition parse (text : string) : option JsonValue :=
  match readValue (S (String.length text)) text with
  | Some (v, r) => if String.eqb (skipWs r) "" then Some v else None
  | None => None
  end.

End Json.

(** ** [src/index.ts] and [src/output.ts]: the data *)

Import Json.

Inductive ParameterType : Type :=
| TString | TNumber | TBoolean | TObject | TArray | TUnknown.

Definition typeName (t : ParameterType) : string :=
  match t with
  | TString => "string" | TNumber => "number" | TBoolean => "boolean"
  | TObject => "object" | TArray => "array" | TUnknown => "unknown"
  end.

Record ParameterInfo : Type := mkParameter {
  name : string;
  type : ParameterType;
  required : bool
}.

Record ResponseExample : Type := mkResponse {
  status : nat;
  example : JsonValue
}.

(** A value that may be [null]. *)
Inductive Nullable (A : Type) : Type :=
| Null
| NotNull (a : A).
Arguments Null {A}.
Arguments NotNull {A} a.

(** [EndpointInfo], with the optional properties as declared in
    [output.ts] (those of [index.ts] are assignable to it).  [None] is an
    absent ([undefined]) property; [method] is the string the code stores
    there. *)
Record EndpointInfo : Type := mkEndpoint {
  method : string;
  path : string;
  description : option string;
  parameters : list ParameterInfo;
  requestBodySchema : option JsonValue;
  response : option (Nullable ResponseExample);
  framework : option string;
  sourceFile : option string;
  line : option nat
}.

Record ScanResult : Type := mkScan {
  scannedAt : option string;
  rootDir : option string;
  endpoints : list EndpointInfo;
  warnings : option (list string)
}.

(** *** The objects as [JSON.stringify] sees them

    A property whose value is [undefined] is left out; [null] is
    written. *)

Definition optField (k : string) (v : option JsonValue) : list (string * JsonValue) :=
  match v with
  | Some x => [(k, x)]
  | None => []
  end.

Definition parameterToJson (p : ParameterInfo) : JsonValue :=
  JObject [("name", JString (name p));
           ("type", JString (typeName (type p)));
           ("required", JBool (required p))].

Definition responseToJson (r : Nullable ResponseExample) : JsonValue :=
  match r with
  | Null => JNull
  | NotNull x => JObject [("status", ofNat (status x)); ("example", example x)]
  end.

Definition endpointToJson (e : EndpointInfo) : JsonValue :=
  JObject ([("method", JString (method e)); ("path", JString (path e))]
           ++ optField "description" (option_map JString (description e))
           ++ [("parameters", JArray (List.map parameterToJson (parameters e)))]
           ++ optField "requestBodySchema" (requestBodySchema e)
           ++ optField "response" (option_map responseToJson (response e))
           ++ optField "framework" (option_map JString (framework e))
           ++ optField "sourceFile" (option_map JString (sourceFile e))
           ++ optField "line" (option_map ofNat (line e)))%list.


(** ** [src/index.ts]: the module state

    The six patterns that [exec] and [test] are called on.  Each is one
    object for the life of the module, and each carries the [g] flag, so
    each keeps a [lastIndex]. *)

Inductive GlobalRegExp : Type :=
| ROUTE_METHOD | FASTIFY_ROUTE | NEST_DECORATOR
| PARAM_JSDOC | RESPONSE_EXAMPLE | REQUEST_SCHEMA.

Definition pattern (g : GlobalRegExp) : Regex :=
  match g with
  | ROUTE_METHOD => ROUTE_METHOD_REGEX
  | FASTIFY_ROUTE => FASTIFY_ROUTE_REGEX
  | NEST_DECORATOR => NEST_DECORATOR_REGEX
  | PARAM_JSDOC => PARAM_JSDOC_REGEX
  | RESPONSE_EXAMPLE => RESPONSE_EXAMPLE_REGEX
  | REQUEST_SCHEMA => REQUEST_SCHEMA_REGEX
  end.

Definition sameRegExp (a b : GlobalRegExp) : bool :=
  match a, b with
  | ROUTE_METHOD, ROUTE_METHOD | FASTIFY_ROUTE, FASTIFY_ROUTE
  | NEST_DECORATOR, NEST_DECORATOR | PARAM_JSDOC, PARAM_JSDOC
  | RESPONSE_EXAMPLE, RESPONSE_EXAMPLE | REQUEST_SCHEMA, REQUEST_SCHEMA => true
  | _, _ => false
  end.

(** The [lastIndex] of every pattern. *)
Definition LastIndex : Type := GlobalRegExp -> nat.

(** The state of a freshly loaded module. *)
Definition fresh : LastIndex := fun _ => 0.

Definition setLastIndex (g : GlobalRegExp) (n : nat) (st : LastIndex) : LastIndex :=
  fun g' => if sameRegExp g g' then n else st g'.

(** [g.exec(s)] *)
Definition exec (g : GlobalRegExp) (s : string) (st : LastIndex)
  : option ExecArray * LastIndex :=
  let '(r, li) := execGlobal (pattern g) s (st g) in
  (r, setLastIndex g li st).

(** [g.test(s)] *)
Definition testGlobal (g : GlobalRegExp) (s : string) (st : LastIndex)
  : bool * LastIndex :=
  let '(r, st') := exec g s st in
  (match r with Some _ => true | None => false end, st').

(** [while ((match = g.exec(s))) body]: the body receives the match, the
    value built so far and the state.  Every match of the four patterns
    looped on is non-empty, so [lastIndex] grows with each round and the
    loop makes at most [length s + 1] calls of [exec]. *)
Fixpoint whileExec {A : Type} (g : GlobalRegExp) (s : string)
    (body : ExecArray -> A -> LastIndex -> A * LastIndex)
    (fuel : nat) (acc : A) (st : LastIndex) : A * LastIndex :=
  match fuel with
  | 0 => (acc, st)
  | S fuel' =>
      match exec g s st with
      | (None, st') => (acc, st')
      | (Some a, st') =>
          let '(acc', st'') := body a acc st' in
          whileExec g s body fuel' acc' st''
      end
  end.

(** ** [src/index.ts]: the functions *)

Definition detectParameterType (raw : string) : ParameterType :=
  let value := Js.toLowerCase raw in
  if Js.includes "string" value then TString
  else if Js.includes "number" value || Js.includes "int" value
          || Js.includes "float" value then TNumber
  else if Js.includes "boolean" value || Js.includes "bool" value then TBoolean
  else if Js.includes "array" value then TArray
  else if Js.includes "object" value then TObject
  else TUnknown.

(** [matches[matches.length - 1] ?? null] *)
Definition extractDocBlock (content : string) (index : nat) : option string :=
  let upToIndex := Js.slice0 index content in
  match matchAll COMMENT_BLOCK_REGEX upToIndex with
  | None => None
  | Some matches => List.last (List.map Some matches) None
  end.

Record DocBlock : Type := mkDoc {
  doc_description : option string;
  doc_params : list ParameterInfo;
  doc_requestBodySchema : JsonValue;
  doc_response : Nullable ResponseExample
}.

Definition noDoc : DocBlock := mkDoc None [] JNull Null.

Section Engine.

(** The runtime's [JSON.parse]; [None] when it throws. *)
Variable JSON_parse : string -> option JsonValue.

Definition parseDocBlock (block : option string) (st : LastIndex)
  : DocBlock * LastIndex :=
  match block with
  | None => (noDoc, st)
  | Some block =>
    if negb (Js.truthy block) then (noDoc, st) else
    let descriptionLines :=
      List.filter (fun line => Js.truthy line && negb (Js.startsWith "@" line))
        (List.map (fun line => Js.trim (replaceFirst LINE_PREFIX_REGEX "" line))
           (Js.split (ascii_of_nat 10) block)) in
    let joined := Js.trim (Js.join " " descriptionLines) in
    let description := if Js.truthy joined then Some joined else None in
    let '(params, st1) :=
      whileExec PARAM_JSDOC block
        (fun match_ params st =>
           let typeRaw := default "" (group match_ 1) in
           let name := default "" (group match_ 2) in
           if negb (Js.truthy name) then (params, st)
           else ((params ++ [mkParameter name (detectParameterType typeRaw)
                               (negb (Js.includes "=" typeRaw))])%list, st))
        (S (String.length block)) [] st in
    let '(responseMatch, st2) := exec RESPONSE_EXAMPLE block st1 in
    let response :=
      match responseMatch with
      | Some a =>
          let status := Js.Number (default "" (group a 1)) in
          let exampleRaw := Js.trim (default "" (group a 2)) in
          let example :=
            match JSON_parse exampleRaw with
            | Some v => v
            | None => JString exampleRaw
            end in
          NotNull (mkResponse status example)
      | None => Null
      end in
    let '(requestMatch, st3) := exec REQUEST_SCHEMA block st2 in
    let requestBodySchema :=
      match requestMatch with
      | Some a =>
          let schemaRaw := Js.trim (default "" (group a 1)) in
          match JSON_parse schemaRaw with
          | Some v => v
          | None => JObject [("schema", JString schemaRaw)]
          end
      | None => JNull
      end in
    (mkDoc description params requestBodySchema response, st3)
  end.

(** The object pushed by the three extractors. *)
Definition mkRoute (method routePath : string) (doc : DocBlock)
    (framework filePath : string) : EndpointInfo :=
  mkEndpoint method routePath (doc_description doc) (doc_params doc)
    (Some (doc_requestBodySchema doc)) (Some (doc_response doc))
    (Some framework) (Some filePath) None.

(** [match[1]?.toUpperCase()] followed by [HTTP_METHODS.includes(method)] *)
Definition methodOf (a : ExecArray) : option string :=
  option_map Js.toUpperCase (group a 1).

Definition supported (method : option string) : bool :=
  match method with
  | Some v => existsb (String.eqb v) HTTP_METHODS
  | None => false
  end.

Definition extractExpressRoutes (filePath content : string) (st : LastIndex)
  : list EndpointInfo * LastIndex :=
  whileExec ROUTE_METHOD content
    (fun match_ endpoints st =>
       let method := methodOf match_ in
       let routePath := default "" (group match_ 2) in
       if negb (supported method) || negb (Js.truthy routePath) then (endpoints, st)
       else
         let docBlock := extractDocBlock content (index match_) in
         let '(doc, st') := parseDocBlock docBlock st in
         ((endpoints ++ [mkRoute (default "" method) routePath doc "express" filePath])%list,
          st'))
    (S (String.length content)) [] st.

Definition extractFastifyRoutes (filePath content : string) (st : LastIndex)
  : list EndpointInfo * LastIndex :=
  whileExec FASTIFY_ROUTE content
    (fun match_ endpoints st =>
       let method := methodOf match_ in
       let routePath := default "" (group match_ 2) in
       if negb (supported method) || negb (Js.truthy routePath) then (endpoints, st)
       else
         let docBlock := extractDocBlock content (index match_) in
         let '(doc, st') := parseDocBlock docBlock st in
         ((endpoints ++ [mkRoute (default "" method) routePath doc "fastify" filePath])%list,
          st'))
    (S (String.length content)) [] st.

Definition extractNestRoutes (filePath content : string) (st : LastIndex)
  : list EndpointInfo * LastIndex :=
  whileExec NEST_DECORATOR content
    (fun match_ endpoints st =>
       let method := methodOf match_ in
       let routePath := default "" (group match_ 2) in
       if negb (supported method) then (endpoints, st)
       else
         let docBlock := extractDocBlock content (index match_) in
         let '(doc, st') := parseDocBlock docBlock st in
         ((endpoints ++ [mkRoute (default "" method)
                           (if Js.truthy routePath then routePath else "/")
                           doc "nestjs" filePath])%list,
          st'))
    (S (String.length content)) [] st.

End Engine.

(** ** [src/index.ts]: plugins and the scan

    A plugin is a pair of callbacks.  Either may read and write state of
    its own (the built-in ones do: the [lastIndex] of their patterns) and
    either may throw. *)

Inductive Completion (A : Type) : Type :=
| Return (a : A)
| Throw.
Arguments Return {A} a.
Arguments Throw {A}.

Record FrameworkPlugin (S : Type) : Type := mkPlugin {
  plugin_name : string;
  plugin_match : string -> string -> S -> Completion bool * S;
  plugin_extract : string -> string -> S -> Completion (list EndpointInfo) * S
}.
Arguments mkPlugin {S} _ _ _.
Arguments plugin_name {S} _.
Arguments plugin_match {S} _ _ _ _.
Arguments plugin_extract {S} _ _ _ _.

Section Plugins.
Variable JSON_parse : string -> option JsonValue.

(** A callback of the built-in plugins: it never throws. *)
Definition total {A : Type} (f : LastIndex -> A * LastIndex)
  : LastIndex -> Completion A * LastIndex :=
  fun st => let '(a, st') := f st in (Return a, st').

Definition expressPlugin : FrameworkPlugin LastIndex :=
  mkPlugin "express"
    (fun _filePath content =>
       total (fun st =>
                if test EXPRESS_MARKER_REGEX content
                then testGlobal ROUTE_METHOD content st
                else (false, st)))
    (fun filePath content => total (extractExpressRoutes JSON_parse filePath content)).

Definition fastifyPlugin : FrameworkPlugin LastIndex :=
  mkPlugin "fastify"
    (fun _filePath content =>
       total (fun st =>
                if test FASTIFY_MARKER_REGEX content
                then testGlobal FASTIFY_ROUTE content st
                else (false, st)))
    (fun filePath content => total (extractFastifyRoutes JSON_parse filePath content)).

Definition nestjsPlugin : FrameworkPlugin LastIndex :=
  mkPlugin "nestjs"
    (fun filePath content =>
       total (fun st =>
                (Js.endsWith ".ts" filePath && test NEST_MARKER_REGEX content, st)))
    (fun filePath content => total (extractNestRoutes JSON_parse filePath content)).

Definition createDefaultPlugins : list (FrameworkPlugin LastIndex) :=
  [expressPlugin; fastifyPlugin; nestjsPlugin].
End Plugins.

Section Scan.
Context {S : Type}.

(** [plugins.filter((plugin) => plugin.match(filePath, content))]: the
    tests run in order, before any extraction; a throwing test is not
    caught. *)
Fixpoint filterMatching (plugins : list (FrameworkPlugin S))
    (filePath content : string) (st : S)
  : Completion (list (FrameworkPlugin S)) * S :=
  match plugins with
  | [] => (Return [], st)
  | p :: rest =>
      match plugin_match p filePath content st with
      | (Throw, st') => (Throw, st')
      | (Return b, st') =>
          match filterMatching rest filePath content st' with
          | (Throw, st'') => (Throw, st'')
          | (Return l, st'') => (Return (if b then p :: l else l), st'')
          end
      end
  end.

Definition warningFor (filePath : string) (p : FrameworkPlugin S) : string :=
  "Failed to parse " +:+ filePath +:+ " with " +:+ plugin_name p.

(** [for (const plugin of matchedPlugins) try { ... } catch { ... }] *)
Fixpoint runMatched (matched : list (FrameworkPlugin S))
    (filePath content : string)
    (endpoints : list EndpointInfo) (warnings : list string) (st : S)
  : list EndpointInfo * list string * S :=
  match matched with
  | [] => (endpoints, warnings, st)
  | p :: rest =>
      match plugin_extract p filePath content st with
      | (Return extracted, st') =>
          runMatched rest filePath content (endpoints ++ extracted)%list warnings st'
      | (Throw, st') =>
          runMatched rest filePath content endpoints
            (warnings ++ [warningFor filePath p])%list st'
      end
  end.

(** [for (const filePath of files)], over the files with their text *)
Fixpoint scanFiles (plugins : list (FrameworkPlugin S))
    (files : list (string * string))
    (endpoints : list EndpointInfo) (warnings : list string) (st : S)
  : Completion (list EndpointInfo * list string) * S :=
  match files with
  | [] => (Return (endpoints, warnings), st)
  | (filePath, content) :: rest =>
      match filterMatching plugins filePath content st with
      | (Throw, st') => (Throw, st')
      | (Return matchedPlugins, st') =>
          if length matchedPlugins =? 0
          then scanFiles plugins rest endpoints warnings st'
          else
            let '(endpoints', warnings', st'') :=
              runMatched matchedPlugins filePath content endpoints warnings st' in
            scanFiles plugins rest endpoints' warnings' st''
      end
  end.

(** [scanBackendProject(rootDir, plugins)].  [files] is what
    [readAllFiles] and [readFile] deliver for [rootDir] (file system
    faults abort the call and are not modelled), [now] the reading of
    the clock. *)
Definition scanBackendProject (now rootDir : string)
    (files : list (string * string)) (plugins : list (FrameworkPlugin S)) (st : S)
  : Completion ScanResult * S :=
  match scanFiles plugins files [] [] st with
  | (Throw, st') => (Throw, st')
  | (Return (endpoints, warnings), st') =>
      (Return (mkScan (Some now) (Some rootDir) endpoints (Some warnings)), st')
  end.
End Scan.

(** ** [src/output.ts] *)

Definition OUTPUT_DIR : string := ".zeus-core".
Definition OUTPUT_FILE : string := "output.json".

Definition endpointKey (endpoint : EndpointInfo) : string :=
  method endpoint +:+ " " +:+ path endpoint.

Definition normalizeForCompare (endpoint : EndpointInfo) : string :=
  stringify (endpointToJson endpoint).

Record OutputWriteOptions : Type := mkOptions {
  opt_rootDir : string;
  incremental : option bool
}.

Record OutputWriteResult : Type := mkWriteResult {
  outputPath : string;
  wroteFile : bool;
  endpointsWritten : nat;
  endpointsUnchanged : nat
}.

(** The snapshot files.  A file written by [writeOutputJson] holds
    [JSON.stringify(data, null, 2)], and [readExisting] returns what
    [JSON.parse] makes of it again: the file is modelled by the
    [ScanResult] it denotes.  A path with no entry is a file that is
    missing or that does not parse. *)
Abbreviation FileSystem := (gmap string ScanResult).

(** [new Map(pairs)]: a later pair replaces an earlier one with the same
    key. *)
Definition newMap (pairs : list (string * string)) : gmap string string :=
  fold_left (fun acc kv => <[fst kv := snd kv]> acc) pairs ∅.

Section Output.
(** [path.join] of the runtime. *)
Variable path_join : string -> string -> string.

Definition readExisting (outputPath : string) (fs : FileSystem) : option ScanResult :=
  fs !! outputPath.

(** The loop over [data.endpoints] in incremental mode. *)
Fixpoint reconcile (existingMap : gmap string string) (new : list EndpointInfo)
    (nextEndpoints : list EndpointInfo) (endpointsUnchanged : nat)
  : list EndpointInfo * nat :=
  match new with
  | [] => (nextEndpoints, endpointsUnchanged)
  | endpoint :: rest =>
      let key := endpointKey endpoint in
      let serialized := normalizeForCompare endpoint in
      match existingMap !! key with
      | Some existingSerialized =>
          if Js.truthy existingSerialized && String.eqb existingSerialized serialized
          then reconcile existingMap rest (nextEndpoints ++ [endpoint])%list
                         (endpointsUnchanged + 1)
          else reconcile existingMap rest (nextEndpoints ++ [endpoint])%list
                         endpointsUnchanged
      | None => reconcile existingMap rest (nextEndpoints ++ [endpoint])%list
                          endpointsUnchanged
      end
  end.

Definition writeOutputJson (data : ScanResult) (options : OutputWriteOptions)
    (fs : FileSystem) : OutputWriteResult * FileSystem :=
  let outputDir := path_join (opt_rootDir options) OUTPUT_DIR in
  let outputPath := path_join outputDir OUTPUT_FILE in
  let '(data', endpointsWritten, endpointsUnchanged) :=
    match incremental options with
    | Some true =>
        match readExisting outputPath fs with
        | Some existing =>
            let existingMap :=
              newMap (List.map (fun endpoint => (endpointKey endpoint,
                                                 normalizeForCompare endpoint))
                               (endpoints existing)) in
            let '(nextEndpoints, unchanged) :=
              reconcile existingMap (endpoints data) [] 0 in
            (mkScan (scannedAt data) (rootDir data) nextEndpoints (warnings data),
             length nextEndpoints, unchanged)
        | None => (data, length (endpoints data), 0)
        end
    | _ => (data, length (endpoints data), 0)
    end in
  (mkWriteResult outputPath true endpointsWritten endpointsUnchanged,
   <[outputPath := data']> fs).
End Output.

(** A [path.join] for paths that need no normalising. *)
Definition joinPath (a b : string) : string := a +:+ "/" +:+ b.

(** * The loops of the model run to their end

    The star of the matcher and the [while] loops over [exec] are written
    with a bound on their rounds.  The bounds are never reached: a larger
    one gives the same result. *)

Section MatcherFuel.
Variable input : list ascii.

(** [y] can be handed to a continuation by a matcher started at [x]. *)
Definition within (x y : MatchState) : Prop :=
  endIndex x <= endIndex y
  /\ (endIndex y <= length input \/ endIndex y = endIndex x).

Lemma within_refl (x : MatchState) : within x x.
Proof. unfold within. lia. Qed.

Lemma within_trans (x y z : MatchState) : within x y -> within y z -> within x z.
Proof. unfold within. lia. Qed.

Definition extensional (m1 : Continuation -> MatchState -> option MatchState) : Prop :=
  forall k k' x, (forall y, within x y -> k y = k' y) -> m1 k x = m1 k' x.

Lemma repeatMatcher_ext m1 greedy :
  extensional m1 ->
  forall fuel, extensional (fun k => repeatMatcher m1 greedy k fuel).
Proof.
  intros Hm1 fuel. induction fuel as [| fuel IH]; intros k k' x Hk; cbn.
  - apply Hk, within_refl.
  - rewrite (Hk x (within_refl x)).
    rewrite (Hm1 (fun y => if endIndex y =? endIndex x then None
                           else repeatMatcher m1 greedy k fuel y)
                 (fun y => if endIndex y =? endIndex x then None
                           else repeatMatcher m1 greedy k' fuel y) x).
    + reflexivity.
    + intros y Hy. destruct (endIndex y =? endIndex x); [reflexivity |].
      apply IH. intros z Hz. apply Hk. eapply within_trans; eassumption.
Qed.

Lemma m_ext (r : Regex) : extensional (m input r).
Proof.
  induction r as [| p | r1 IH1 r2 IH2 | r1 IH1 r2 IH2 | greedy r1 IH1
                 | n r1 IH1 | r1 IH1 | |]; intros k k' x Hk; cbn [m].
  - apply Hk, within_refl.
  - destruct (charAt input (endIndex x)) as [c |] eqn:Hc; [| reflexivity].
    destruct (p c); [| reflexivity]. apply Hk.
    unfold within. cbn. unfold charAt in Hc.
    assert (endIndex x < length input) by (apply nth_error_Some; congruence). lia.
  - apply IH1. intros y Hy. apply IH2. intros z Hz. apply Hk.
    eapply within_trans; eassumption.
  - rewrite (IH1 k k' x Hk), (IH2 k k' x Hk). reflexivity.
  - apply (repeatMatcher_ext (m input r1) greedy IH1 _ k k' x Hk).
  - apply IH1. intros y Hy. apply Hk. exact Hy.
  - destruct (m input r1 Some x); [| reflexivity]. apply Hk. unfold within. cbn. lia.
  - destruct (atBoundary input (endIndex x)); [apply Hk, within_refl | reflexivity].
  - destruct (endIndex x =? 0); [apply Hk, within_refl | reflexivity].
Qed.

(** Any fuel above the number of characters left gives the same
    iterations. *)
Lemma repeatMatcher_fuel m1 greedy k :
  extensional m1 ->
  forall f1 f2 x,
    length input - endIndex x < f1 -> length input - endIndex x < f2 ->
    repeatMatcher m1 greedy k f1 x = repeatMatcher m1 greedy k f2 x.
Proof.
  intros Hm1 f1. induction f1 as [| f1 IH]; intros f2 x H1 H2; [lia |].
  destruct f2 as [| f2]; [lia |]. cbn.
  rewrite (Hm1 (fun y => if endIndex y =? endIndex x then None
                         else repeatMatcher m1 greedy k f1 y)
               (fun y => if endIndex y =? endIndex x then None
                         else repeatMatcher m1 greedy k f2 y) x).
  - reflexivity.
  - intros y [Hle Hy]. destruct (Nat.eqb_spec (endIndex y) (endIndex x)); [reflexivity |].
    apply IH; lia.
Qed.

(** The star as the matcher runs it is the star with any larger bound. *)
Lemma star_fuel_enough greedy (r : Regex) (k : Continuation) (x : MatchState) (extra : nat) :
  m input (Star greedy r) k x
  = repeatMatcher (m input r) greedy k (Datatypes.S (length input - endIndex x) + extra) x.
Proof. cbn [m]. apply repeatMatcher_fuel; [apply m_ext | lia | lia]. Qed.

(** A pattern that cannot match the empty text. *)
Fixpoint consumes (r : Regex) : bool :=
  match r with
  | Chr _ => true
  | Seq r1 r2 => consumes r1 || consumes r2
  | Alt r1 r2 => consumes r1 && consumes r2
  | Group _ r1 => consumes r1
  | _ => false
  end.

Definition reaches (m1 : Continuation -> MatchState -> option MatchState)
    (strict : bool) : Prop :=
  forall k x z, m1 k x = Some z ->
    exists y, k y = Some z /\ within x y
              /\ (strict = true -> endIndex x < endIndex y).

Lemma repeatMatcher_reaches m1 greedy :
  reaches m1 false ->
  forall fuel, reaches (fun k => repeatMatcher m1 greedy k fuel) false.
Proof.
  intros Hm1 fuel. induction fuel as [| fuel IH]; intros k x z H; cbn in H.
  - exists x. split; [exact H |]. split; [apply within_refl | discriminate].
  - assert (m1 (fun y => if endIndex y =? endIndex x then None
                         else repeatMatcher m1 greedy k fuel y) x = Some z ->
            exists y, k y = Some z /\ within x y /\ (false = true -> endIndex x < endIndex y))
      as Hagain.
    { intros Ha. apply Hm1 in Ha as (y & Hy & Hxy & _).
      destruct (endIndex y =? endIndex x); [discriminate |].
      apply IH in Hy as (y' & Hk & Hyy' & _).
      exists y'. split; [exact Hk |]. split; [| discriminate].
      eapply within_trans; eassumption. }
    assert (k x = Some z ->
            exists y, k y = Some z /\ within x y /\ (false = true -> endIndex x < endIndex y))
      as Hstop.
    { intros Hk. exists x. split; [exact Hk |]. split; [apply within_refl | discriminate]. }
    destruct greedy.
    + destruct (m1 _ x) as [z' |] eqn:Ha; [| auto].
      injection H as ->. auto.
    + destruct (k x) as [z' |] eqn:Hk; [| auto].
      injection H as ->. auto.
Qed.

Lemma reaches_weaken m1 (b : bool) : reaches m1 b -> reaches m1 false.
Proof.
  intros H k x z Hz. destruct (H k x z Hz) as (y & ? & ? & _).
  exists y. split; [assumption |]. split; [assumption | discriminate].
Qed.

Lemma m_reaches (r : Regex) : reaches (m input r) (consumes r).
Proof.
  induction r as [| p | r1 IH1 r2 IH2 | r1 IH1 r2 IH2 | greedy r1 IH1
                 | n r1 IH1 | r1 IH1 | |]; intros k x z H; cbn [m] in H; cbn [consumes].
  - exists x. split; [exact H |]. split; [apply within_refl | discriminate].
  - destruct (charAt input (endIndex x)) as [c |] eqn:Hc; [| discriminate].
    destruct (p c); [| discriminate].
    exists (mkState (Datatypes.S (endIndex x)) (captures x)).
    split; [exact H |]. unfold within, charAt in *. cbn.
    assert (endIndex x < length input) by (apply nth_error_Some; congruence). lia.
  - apply IH1 in H as (y1 & H & Hxy1 & Hs1).
    apply IH2 in H as (y & H & Hy1y & Hs2).
    exists y. split; [exact H |]. split; [eapply within_trans; eassumption |].
    intros Hc. apply orb_true_iff in Hc. unfold within in *.
    destruct Hc as [Hc | Hc]; [specialize (Hs1 Hc) | specialize (Hs2 Hc)]; lia.
  - destruct (m input r1 k x) as [z' |] eqn:H1.
    + injection H as ->. apply IH1 in H1 as (y & ? & ? & Hs).
      exists y. split; [assumption |]. split; [assumption |].
      intros Hc. apply andb_true_iff in Hc as [Hc _]. auto.
    + apply IH2 in H as (y & ? & ? & Hs).
      exists y. split; [assumption |]. split; [assumption |].
      intros Hc. apply andb_true_iff in Hc as [_ Hc]. auto.
  - eapply (repeatMatcher_reaches (m input r1) greedy); [| exact H].
    eapply reaches_weaken, IH1.
  - apply IH1 in H as (y & H & Hxy & Hs).
    exists (mkState (endIndex y) ((n, (endIndex x, endIndex y)) :: captures y)).
    split; [exact H |]. split; [exact Hxy | exact Hs].
  - destruct (m input r1 Some x) as [y |]; [| discriminate].
    exists (mkState (endIndex x) (captures y)).
    split; [exact H |]. split; [| discriminate]. unfold within. cbn. lia.
  - destruct (atBoundary input (endIndex x)); [| discriminate].
    exists x. split; [exact H |]. split; [apply within_refl | discriminate].
  - destruct (endIndex x =? 0); [| discriminate].
    exists x. split; [exact H |]. split; [apply within_refl | discriminate].
Qed.

Lemma search_bounds (r : Regex) (fuel from i : nat) (y : MatchState) :
  search input r fuel from = Some (i, y) ->
  (from <= i <= from + fuel) /\ m input r Some (mkState i []) = Some y.
Proof.
  revert from. induction fuel as [| fuel IH]; intros from H; cbn in H.
  - destruct (m input r Some (mkState from [])) eqn:Hm; [| discriminate].
    injection H as <- <-. split; [lia | exact Hm].
  - destruct (m input r Some (mkState from [])) eqn:Hm.
    + injection H as <- <-. split; [lia | exact Hm].
    + apply IH in H as [? ?]. split; [lia | assumption].
Qed.
End MatcherFuel.

Lemma length_list_ascii_of_string (s : string) :
  length (list_ascii_of_string s) = String.length s.
Proof. induction s as [| c s IH]; cbn; [reflexivity | f_equal; exact IH]. Qed.

(** Where a match found from [from] lies. *)
Lemma matchFrom_bounds (r : Regex) (s : string) (from : nat) (a : ExecArray) :
  matchFrom r s from = Some a ->
  from <= index a /\ (index a <= lastEnd a <= String.length s)
  /\ (consumes r = true -> index a < lastEnd a).
Proof.
  unfold matchFrom. destruct (Nat.ltb_spec (String.length s) from) as [| Hle]; [discriminate |].
  destruct (search (list_ascii_of_string s) r (String.length s - from) from)
    as [[i y] |] eqn:Hs; [| discriminate].
  intros H. injection H as <-. cbn [index lastEnd mkExecArray].
  apply search_bounds in Hs as [Hi Hm].
  apply m_reaches in Hm as (y' & Hy' & [Hle1 Hle2] & Hstrict).
  injection Hy' as ->. cbn in *. rewrite length_list_ascii_of_string in Hle2.
  repeat split; try lia. exact Hstrict.
Qed.

(** All the matches of [s.match(r)] are collected within the bound. *)
Lemma matchAllGo_fuel (r : Regex) (s : string) (fuel extra from : nat) :
  String.length s < fuel + from ->
  matchAllGo r s fuel from = matchAllGo r s (fuel + extra) from.
Proof.
  revert from. induction fuel as [| fuel IH]; intros from H.
  - cbn [matchAllGo Nat.add]. destruct extra as [| extra]; [reflexivity |].
    cbn [matchAllGo]. unfold matchFrom.
    assert ((String.length s <? from) = true) as -> by (apply Nat.ltb_lt; lia).
    reflexivity.
  - cbn [matchAllGo Nat.add].
    destruct (matchFrom r s from) as [a |] eqn:Ha; [| reflexivity].
    apply matchFrom_bounds in Ha as (Hfrom & Hend & _).
    rewrite <- IH; [reflexivity |].
    destruct (Nat.eqb_spec (lastEnd a) (index a)); lia.
Qed.

Lemma patterns_consume (g : GlobalRegExp) : consumes (pattern g) = true.
Proof. destruct g; reflexivity. Qed.

(** The [while] loop over [exec] has stopped on a failed [exec] within
    its bound, whatever [lastIndex] it starts from, when the body leaves
    the [lastIndex] of the pattern alone. *)
Lemma whileExec_fuel {A : Type} (g : GlobalRegExp) (s : string)
    (body : ExecArray -> A -> LastIndex -> A * LastIndex) :
  (forall a acc st, snd (body a acc st) g = st g) ->
  forall fuel extra acc st,
    String.length s <= fuel + st g ->
    whileExec g s body (Datatypes.S fuel) acc st
    = whileExec g s body (Datatypes.S fuel + extra) acc st.
Proof.
  intros Hbody fuel.
  induction fuel as [| fuel IH]; intros extra acc st Hlen;
    cbn [whileExec Nat.add]; unfold exec, execGlobal;
    destruct (matchFrom (pattern g) s (st g)) as [a |] eqn:Ha; try reflexivity;
    apply matchFrom_bounds in Ha as (Hfrom & Hend & Hstrict);
    specialize (Hstrict (patterns_consume g)).
  - lia.
  - specialize (Hbody a acc (setLastIndex g (lastEnd a) st)).
    destruct (body a acc (setLastIndex g (lastEnd a) st)) as [acc' st'].
    cbn [snd] in Hbody.
    apply (IH extra acc' st'). rewrite Hbody. unfold setLastIndex.
    destruct g; cbn; lia.
Qed.

Lemma whileExec_other {A : Type} (g g' : GlobalRegExp) (s : string)
    (body : ExecArray -> A -> LastIndex -> A * LastIndex) :
  sameRegExp g g' = false ->
  (forall a acc st, snd (body a acc st) g' = st g') ->
  forall fuel acc st, snd (whileExec g s body fuel acc st) g' = st g'.
Proof.
  intros Hne Hbody fuel. induction fuel as [| fuel IH]; intros acc st; cbn; [reflexivity |].
  unfold exec, execGlobal, setLastIndex.
  destruct (matchFrom (pattern g) s (st g)) as [a |]; cbn; [| rewrite Hne; reflexivity].
  specialize (Hbody a acc (fun g'0 => if sameRegExp g g'0 then lastEnd a else st g'0)).
  destruct (body a acc _) as [acc' st'] eqn:Hb. cbn [snd] in Hbody.
  rewrite IH, Hbody, Hne. reflexivity.
Qed.

Lemma exec_other (g g' : GlobalRegExp) (s : string) (st : LastIndex) :
  sameRegExp g g' = false -> snd (exec g s st) g' = st g'.
Proof.
  intros Hne. unfold exec, execGlobal, setLastIndex.
  destruct (matchFrom (pattern g) s (st g)); cbn; rewrite Hne; reflexivity.
Qed.

Section ExtractorFuel.
Variable JSON_parse : string -> option JsonValue.

(** Parsing a block touches the three patterns of the annotations
    only. *)
Lemma parseDocBlock_other (g : GlobalRegExp) (block : option string) (st : LastIndex) :
  sameRegExp PARAM_JSDOC g = false -> sameRegExp RESPONSE_EXAMPLE g = false ->
  sameRegExp REQUEST_SCHEMA g = false ->
  snd (parseDocBlock JSON_parse block st) g = st g.
Proof.
  intros H1 H2 H3. unfold parseDocBlock.
  destruct block as [block |]; [| reflexivity].
  destruct (negb (Js.truthy block)); [reflexivity |].
  match goal with
  | |- context [whileExec PARAM_JSDOC block ?b ?f ?acc st] =>
      assert (forall a ps s, snd (b a ps s) g = s g) as Hbody
        by (intros a ps s; cbn;
            destruct (negb (Js.truthy (default "" (group a 2)))); reflexivity);
      pose proof (whileExec_other PARAM_JSDOC g block b H1 Hbody f acc st) as Hw;
      destruct (whileExec PARAM_JSDOC block b f acc st) as [params st1]
  end.
  cbn [snd] in Hw.
  pose proof (exec_other RESPONSE_EXAMPLE g block st1 H2) as Hr.
  destruct (exec RESPONSE_EXAMPLE block st1) as [responseMatch st2]. cbn [snd] in Hr.
  pose proof (exec_other REQUEST_SCHEMA g block st2 H3) as Hq.
  destruct (exec REQUEST_SCHEMA block st2) as [requestMatch st3]. cbn [snd] in *.
  congruence.
Qed.

(** The three extractors and the parameter loop give the same result
    under any larger bound. *)
Lemma parameterLoop_fuel (block : string) (st : LastIndex) (extra : nat) :
  let body := fun (match_ : ExecArray) (params : list ParameterInfo) (st : LastIndex) =>
                let typeRaw := default "" (group match_ 1) in
                let name := default "" (group match_ 2) in
                if negb (Js.truthy name) then (params, st)
                else ((params ++ [mkParameter name (detectParameterType typeRaw)
                                    (negb (Js.includes "=" typeRaw))])%list, st) in
  whileExec PARAM_JSDOC block body (Datatypes.S (String.length block)) [] st
  = whileExec PARAM_JSDOC block body (Datatypes.S (String.length block) + extra) [] st.
Proof.
  cbn zeta. apply whileExec_fuel; [| lia].
  intros a acc s. cbn. destruct (negb (Js.truthy (default "" (group a 2)))); reflexivity.
Qed.

Lemma extractExpressRoutes_fuel (filePath content : string) (st : LastIndex) (extra : nat) :
  extractExpressRoutes JSON_parse filePath content st
  = whileExec ROUTE_METHOD content
      (fun match_ endpoints st =>
         let method := methodOf match_ in
         let routePath := default "" (group match_ 2) in
         if negb (supported method) || negb (Js.truthy routePath) then (endpoints, st)
         else
           let docBlock := extractDocBlock content (index match_) in
           let '(doc, st') := parseDocBlock JSON_parse docBlock st in
           ((endpoints ++ [mkRoute (default "" method) routePath doc "express" filePath])%list,
            st'))
      (Datatypes.S (String.length content) + extra) [] st.
Proof.
  unfold extractExpressRoutes. apply whileExec_fuel; [| lia].
  intros a acc s. cbn zeta.
  destruct (negb (supported (methodOf a)) || negb (Js.truthy (default "" (group a 2))));
    [reflexivity |].
  pose proof (parseDocBlock_other ROUTE_METHOD (extractDocBlock content (index a)) s
                eq_refl eq_refl eq_refl) as H.
  destruct (parseDocBlock JSON_parse (extractDocBlock content (index a)) s). exact H.
Qed.

Lemma extractFastifyRoutes_fuel (filePath content : string) (st : LastIndex) (extra : nat) :
  extractFastifyRoutes JSON_parse filePath content st
  = whileExec FASTIFY_ROUTE content
      (fun match_ endpoints st =>
         let method := methodOf match_ in
         let routePath := default "" (group match_ 2) in
         if negb (supported method) || negb (Js.truthy routePath) then (endpoints, st)
         else
           let docBlock := extractDocBlock content (index match_) in
           let '(doc, st') := parseDocBlock JSON_parse docBlock st in
           ((endpoints ++ [mkRoute (default "" method) routePath doc "fastify" filePath])%list,
            st'))
      (Datatypes.S (String.length content) + extra) [] st.
Proof.
  unfold extractFastifyRoutes. apply whileExec_fuel; [| lia].
  intros a acc s. cbn zeta.
  destruct (negb (supported (methodOf a)) || negb (Js.truthy (default "" (group a 2))));
    [reflexivity |].
  pose proof (parseDocBlock_other FASTIFY_ROUTE (extractDocBlock content (index a)) s
                eq_refl eq_refl eq_refl) as H.
  destruct (parseDocBlock JSON_parse (extractDocBlock content (index a)) s). exact H.
Qed.

Lemma extractNestRoutes_fuel (filePath content : string) (st : LastIndex) (extra : nat) :
  extractNestRoutes JSON_parse filePath content st
  = whileExec NEST_DECORATOR content
      (fun match_ endpoints st =>
         let method := methodOf match_ in
         let routePath := default "" (group match_ 2) in
         if negb (supported method) then (endpoints, st)
         else
           let docBlock := extractDocBlock content (index match_) in
           let '(doc, st') := parseDocBlock JSON_parse docBlock st in
           ((endpoints ++ [mkRoute (default "" method)
                             (if Js.truthy routePath then routePath else "/")
                             doc "nestjs" filePath])%list,
            st'))
      (Datatypes.S (String.length content) + extra) [] st.
Proof.
  unfold extractNestRoutes. apply whileExec_fuel; [| lia].
  intros a acc s. cbn zeta.
  destruct (negb (supported (methodOf a))); [reflexivity |].
  pose proof (parseDocBlock_other NEST_DECORATOR (extractDocBlock content (index a)) s
                eq_refl eq_refl eq_refl) as H.
  destruct (parseDocBlock JSON_parse (extractDocBlock content (index a)) s). exact H.
Qed.
End ExtractorFuel.

(** * Properties *)

(** ** Parameter types *)

(** The classification as the specification words it: a table of keyword
    groups in priority order, the first group with a keyword occurring in
    the lower-cased text wins, and no group gives [unknown]. *)
Definition typeKeywords : list (list string * ParameterType) :=
  [ (["string"], TString);
    (["number"; "int"; "float"], TNumber);
    (["boolean"; "bool"], TBoolean);
    (["array"], TArray);
    (["object"], TObject) ].

Fixpoint classifyByPriority (table : list (list string * ParameterType))
    (value : string) : ParameterType :=
  match table with
  | [] => TUnknown
  | (keywords, t) :: rest =>
      if existsb (fun k => Js.includes k value) keywords then t
      else classifyByPriority rest value
  end.

(** C10. [detectParameterType] classifies the lower-cased type text by
    the fixed keyword priority string, number/int/float, boolean/bool,
    array, object, with unknown as the default; a text with several
    keywords takes the first in that order, so [Array<string>] is a
    string and not an array. *)
Theorem detectParameterType_priority :
  forall raw : string,
    detectParameterType raw = classifyByPriority typeKeywords (Js.toLowerCase raw)
    /\ detectParameterType "Array<string>" = TString
    /\ classifyByPriority typeKeywords "array<string>" <> TArray.
Proof.
  intros raw. split; [| split].
  - unfold detectParameterType. cbn [classifyByPriority typeKeywords existsb].
    set (v := Js.toLowerCase raw).
    rewrite !orb_false_r.
    destruct (Js.includes "string" v); [reflexivity |].
    destruct (Js.includes "number" v); [reflexivity |].
    destruct (Js.includes "int" v); [reflexivity |].
    destruct (Js.includes "float" v); [reflexivity |].
    destruct (Js.includes "boolean" v); [reflexivity |].
    destruct (Js.includes "bool" v); [reflexivity |].
    destruct (Js.includes "array" v); [reflexivity |].
    destruct (Js.includes "object" v); reflexivity.
  - reflexivity.
  - vm_compute. discriminate.
Qed.

(** ** The snapshot writer *)

Section OutputProperties.
Variable path_join : string -> string -> string.

Definition snapshotPath (root : string) : string :=
  path_join (path_join root OUTPUT_DIR) OUTPUT_FILE.

(** The endpoints counted as unchanged against a lookup table. *)
Definition unchangedIn (existingMap : gmap string string) (e : EndpointInfo) : bool :=
  match existingMap !! endpointKey e with
  | Some s => String.eqb s (normalizeForCompare e)
  | None => false
  end.

Lemma normalizeForCompare_truthy (e : EndpointInfo) :
  Js.truthy (normalizeForCompare e) = true.
Proof. reflexivity. Qed.

Lemma reconcile_spec (existingMap : gmap string string) (new next : list EndpointInfo) (n : nat) :
  reconcile existingMap new next n =
    ((next ++ new)%list, n + length (List.filter (unchangedIn existingMap) new)).
Proof.
  revert next n. induction new as [| e new IH]; intros next n.
  - rewrite app_nil_r. cbn. f_equal. lia.
  - assert (Hstep : reconcile existingMap (e :: new) next n =
                    reconcile existingMap new (next ++ [e])%list
                      (if unchangedIn existingMap e then n + 1 else n)).
    { cbn [reconcile]. unfold unchangedIn.
      destruct (existingMap !! endpointKey e) as [s |]; [| reflexivity].
      destruct (s =? normalizeForCompare e)%string eqn:He.
      - apply String.eqb_eq in He. subst s.
        rewrite normalizeForCompare_truthy. reflexivity.
      - rewrite andb_false_r. reflexivity. }
    rewrite Hstep, IH, <- app_assoc. cbn [List.filter app].
    destruct (unchangedIn existingMap e); cbn [length]; f_equal; lia.
Qed.

Lemma scan_eta (d : ScanResult) :
  mkScan (scannedAt d) (rootDir d) (endpoints d) (warnings d) = d.
Proof. destruct d; reflexivity. Qed.

(** Whatever the mode and whatever the file held, the file holds the
    new scan afterwards and the count written is its length. *)
Lemma writeOutputJson_writes (data : ScanResult) (options : OutputWriteOptions)
    (fs : FileSystem) :
  let r := writeOutputJson path_join data options fs in
  outputPath (fst r) = snapshotPath (opt_rootDir options)
  /\ snd r = <[snapshotPath (opt_rootDir options) := data]> fs
  /\ endpointsWritten (fst r) = length (endpoints data).
Proof.
  unfold writeOutputJson, snapshotPath.
  destruct (incremental options) as [[|] |]; cbn; try tauto.
  unfold readExisting.
  destruct (fs !! _) as [existing |]; cbn; try tauto.
  rewrite reconcile_spec. cbn. rewrite scan_eta. tauto.
Qed.

(** C3. In incremental mode with a readable prior snapshot, the
    snapshot written holds exactly the endpoints of the new scan, in
    their order, none left out, and [endpointsWritten] is their
    number. *)
Theorem writeOutputJson_incremental_keeps_all :
  forall (data existing : ScanResult) (root : string) (fs : FileSystem),
    readExisting (snapshotPath root) fs = Some existing ->
    let r := writeOutputJson path_join data (mkOptions root (Some true)) fs in
    option_map endpoints (readExisting (outputPath (fst r)) (snd r))
      = Some (endpoints data)
    /\ endpointsWritten (fst r) = length (endpoints data).
Proof.
  intros data existing root fs _.
  destruct (writeOutputJson_writes data (mkOptions root (Some true)) fs)
    as (Hp & Hfs & Hn).
  cbn zeta. rewrite Hp, Hfs, Hn. cbn [opt_rootDir].
  unfold readExisting. rewrite lookup_insert_eq. auto.
Qed.

(** *** The round trip *)

Lemma newMap_snoc (pairs : list (string * string)) (k v : string) :
  newMap (pairs ++ [(k, v)]) = <[k := v]> (newMap pairs).
Proof. unfold newMap. rewrite fold_left_app. reflexivity. Qed.

(** A key of the table holds the text of some pair with that key. *)
Lemma newMap_lookup_Some (pairs : list (string * string)) (k v : string) :
  newMap pairs !! k = Some v -> In (k, v) pairs.
Proof.
  induction pairs as [| [k' v'] pairs IH] using rev_ind.
  - unfold newMap. cbn. rewrite lookup_empty. discriminate.
  - rewrite newMap_snoc. intros H. apply in_or_app.
    destruct (decide (k' = k)) as [-> | Hne].
    + rewrite lookup_insert_eq in H. injection H as ->. right. left. reflexivity.
    + rewrite lookup_insert_ne in H by exact Hne. left. auto.
Qed.

Lemma newMap_lookup_In (pairs : list (string * string)) (k v : string) :
  In (k, v) pairs -> exists v', newMap pairs !! k = Some v'.
Proof.
  induction pairs as [| [k' v'] pairs IH] using rev_ind.
  - intros [].
  - rewrite newMap_snoc. intros H. apply in_app_or in H.
    destruct (decide (k' = k)) as [-> | Hne].
    + exists v'. apply lookup_insert_eq.
    + rewrite lookup_insert_ne by exact Hne.
      destruct H as [H | [H | []]]; [auto | congruence].
Qed.

(** Endpoints that share a key also share their serialized form. *)
Definition keysAgree (eps : list EndpointInfo) : Prop :=
  forall e1 e2, In e1 eps -> In e2 eps ->
    endpointKey e1 = endpointKey e2 ->
    normalizeForCompare e1 = normalizeForCompare e2.

Definition tableOf (eps : list EndpointInfo) : gmap string string :=
  newMap (List.map (fun endpoint => (endpointKey endpoint, normalizeForCompare endpoint)) eps).

Lemma unchangedIn_own_table (eps : list EndpointInfo) (e : EndpointInfo) :
  keysAgree eps -> In e eps -> unchangedIn (tableOf eps) e = true.
Proof.
  intros Hagree He. unfold unchangedIn, tableOf.
  destruct (newMap_lookup_In
              (List.map (fun x => (endpointKey x, normalizeForCompare x)) eps)
              (endpointKey e) (normalizeForCompare e)) as [s Hs].
  { apply in_map_iff. exists e. auto. }
  rewrite Hs. apply newMap_lookup_Some in Hs.
  apply in_map_iff in Hs as (e' & Heq & He').
  injection Heq as Hk Hser. subst s.
  apply String.eqb_eq. apply Hagree; auto.
Qed.

Lemma filter_all {A : Type} (p : A -> bool) (l : list A) :
  (forall x, In x l -> p x = true) -> List.filter p l = l.
Proof.
  induction l as [| x l IH]; intros H; cbn; [reflexivity |].
  rewrite (H x (or_introl eq_refl)). f_equal. apply IH.
  intros y Hy. apply H. right. exact Hy.
Qed.

(** C4, as the code has it.  Persisting a scan and then persisting the
    same scan again in incremental mode reports every endpoint as
    unchanged, and as written, provided the endpoints of the scan that
    share a method and path key have the same serialized form (so in
    particular when all keys differ). *)
Theorem incremental_round_trip :
  forall (data : ScanResult) (root : string) (mode : option bool) (fs : FileSystem),
    keysAgree (endpoints data) ->
    let fs1 := snd (writeOutputJson path_join data (mkOptions root mode) fs) in
    let r := fst (writeOutputJson path_join data (mkOptions root (Some true)) fs1) in
    endpointsUnchanged r = endpointsWritten r
    /\ endpointsWritten r = length (endpoints data).
Proof.
  intros data root mode fs Hagree fs1 r.
  destruct (writeOutputJson_writes data (mkOptions root mode) fs) as (_ & Hfs1 & _).
  destruct (writeOutputJson_writes data (mkOptions root (Some true)) fs1) as (_ & _ & Hn).
  fold r in Hn. split; [| exact Hn]. rewrite Hn.
  subst r. unfold writeOutputJson. cbn [incremental opt_rootDir].
  unfold readExisting. fold (snapshotPath root).
  subst fs1. rewrite Hfs1. cbn [opt_rootDir]. rewrite lookup_insert_eq.
  rewrite reconcile_spec. cbn [endpointsUnchanged].
  fold (tableOf (endpoints data)).
  rewrite filter_all; [reflexivity |].
  intros e He. apply unchangedIn_own_table; assumption.
Qed.
End OutputProperties.

(** ** The scan: extraction failures *)

Section ScanProperties.
Context {S : Type}.
Implicit Types (p : FrameworkPlugin S) (st : S).

(** The plugins of a run of the inner loop whose extraction threw, in
    the order they ran. *)
Fixpoint thrown (matched : list (FrameworkPlugin S)) (filePath content : string)
    (st : S) : list (FrameworkPlugin S) :=
  match matched with
  | [] => []
  | p :: rest =>
      match plugin_extract p filePath content st with
      | (Return _, st') => thrown rest filePath content st'
      | (Throw, st') => p :: thrown rest filePath content st'
      end
  end.

(** The state the inner loop leaves. *)
Definition stateAfter (matched : list (FrameworkPlugin S)) (filePath content : string)
    (st : S) : S :=
  snd (runMatched matched filePath content [] [] st).

(** The extraction failures of a scan, in the order they occur: the
    pairs of a file and a plugin that applied to it and threw while
    extracting from it. *)
Fixpoint failures (plugins : list (FrameworkPlugin S)) (files : list (string * string))
    (st : S) : list (string * FrameworkPlugin S) :=
  match files with
  | [] => []
  | (filePath, content) :: rest =>
      match filterMatching plugins filePath content st with
      | (Throw, _) => []
      | (Return matched, st') =>
          (List.map (pair filePath) (thrown matched filePath content st')
           ++ failures plugins rest (stateAfter matched filePath content st'))%list
      end
  end.

Definition warningOf (failure : string * FrameworkPlugin S) : string :=
  warningFor (fst failure) (snd failure).

(** What the inner loop appends, and the state it leaves. *)
Lemma runMatched_app matched filePath content endpoints warnings st :
  exists extracted,
    runMatched matched filePath content endpoints warnings st =
      ((endpoints ++ extracted)%list,
       (warnings ++ List.map (warningFor filePath) (thrown matched filePath content st))%list,
       stateAfter matched filePath content st).
Proof.
  unfold stateAfter. revert endpoints warnings st.
  induction matched as [| p rest IH]; intros endpoints warnings st; cbn.
  - exists []. rewrite !app_nil_r. reflexivity.
  - destruct (plugin_extract p filePath content st) as [[extracted |] st'].
    + destruct (IH (endpoints ++ extracted)%list warnings st') as (ex & ->).
      destruct (IH extracted [] st') as (ex' & ->).
      exists (extracted ++ ex)%list. rewrite app_assoc. reflexivity.
    + destruct (IH endpoints (warnings ++ [warningFor filePath p])%list st') as (ex & ->).
      destruct (IH [] [warningFor filePath p] st') as (ex' & ->).
      exists ex. cbn. rewrite <- app_assoc. reflexivity.
Qed.

Lemma filterMatching_sound plugins filePath content st matched st' :
  filterMatching plugins filePath content st = (Return matched, st') ->
  forall p, In p matched ->
    In p plugins /\ exists s, fst (plugin_match p filePath content s) = Return true.
Proof.
  revert st matched st'.
  induction plugins as [| q rest IH]; intros st matched st' H p Hp; cbn in H.
  - injection H as <- _. destruct Hp.
  - destruct (plugin_match q filePath content st) as [[b |] s1] eqn:Hq; [| discriminate].
    destruct (filterMatching rest filePath content s1) as [[l |] s2] eqn:Hl; [| discriminate].
    injection H as <- _.
    assert (In p l -> In p (q :: rest) /\
            exists s, fst (plugin_match p filePath content s) = Return true) as Hl'.
    { intros Hin. destruct (IH _ _ _ Hl p Hin) as [? ?]. split; [right |]; assumption. }
    destruct b; [| auto].
    destruct Hp as [<- | Hp]; [| auto].
    split; [left; reflexivity |]. exists st. rewrite Hq. reflexivity.
Qed.

Lemma thrown_sound matched filePath content st p :
  In p (thrown matched filePath content st) ->
  In p matched /\ exists s, fst (plugin_extract p filePath content s) = Throw.
Proof.
  revert st. induction matched as [| q rest IH]; intros st H; cbn in H; [destruct H |].
  destruct (plugin_extract q filePath content st) as [[extracted |] s1] eqn:Hq.
  - destruct (IH _ H) as [? ?]. split; [right |]; assumption.
  - destruct H as [<- | H].
    + split; [left; reflexivity |]. exists st. rewrite Hq. reflexivity.
    + destruct (IH _ H) as [? ?]. split; [right |]; assumption.
Qed.

(** A failure names a file of the tree and a plugin that applied to it
    and threw while extracting from it. *)
Definition caughtFailure (plugins : list (FrameworkPlugin S))
    (files : list (string * string)) (failure : string * FrameworkPlugin S) : Prop :=
  exists content s s',
    In (fst failure, content) files /\ In (snd failure) plugins
    /\ fst (plugin_match (snd failure) (fst failure) content s) = Return true
    /\ fst (plugin_extract (snd failure) (fst failure) content s') = Throw.

Lemma failures_sound plugins files st failure :
  In failure (failures plugins files st) -> caughtFailure plugins files failure.
Proof.
  revert st. induction files as [| [filePath content] rest IH]; intros st H; cbn in H;
    [destruct H |].
  destruct (filterMatching plugins filePath content st) as [[matched |] s1] eqn:Hm;
    [| destruct H].
  apply in_app_or in H as [H | H].
  - apply in_map_iff in H as (p & <- & Hp).
    apply thrown_sound in Hp as (Hp & s' & Hthrow).
    destruct (filterMatching_sound _ _ _ _ _ _ Hm p Hp) as (Hin & s & Hmatch).
    exists content, s, s'. cbn. split; [left; reflexivity | auto].
  - destruct (IH _ H) as (c & s & s' & Hf & Hrest).
    exists c, s, s'. split; [right; exact Hf | exact Hrest].
Qed.

Definition testsReturn (plugins : list (FrameworkPlugin S)) : Prop :=
  forall p filePath content st, In p plugins ->
    exists b st', plugin_match p filePath content st = (Return b, st').

Lemma filterMatching_returns plugins filePath content st :
  testsReturn plugins ->
  exists matched st', filterMatching plugins filePath content st = (Return matched, st').
Proof.
  revert st. induction plugins as [| q rest IH]; intros st H; cbn.
  - eauto.
  - destruct (H q filePath content st (or_introl eq_refl)) as (b & s1 & ->).
    destruct (IH s1) as (l & s2 & ->).
    { intros p f c s Hp. apply H. right. exact Hp. }
    eauto.
Qed.

Lemma scanFiles_spec plugins files endpoints warnings st :
  testsReturn plugins ->
  exists extracted st',
    scanFiles plugins files endpoints warnings st =
      (Return ((endpoints ++ extracted)%list,
               (warnings ++ List.map warningOf (failures plugins files st))%list), st').
Proof.
  intros Htests. revert endpoints warnings st.
  induction files as [| [filePath content] rest IH]; intros endpoints warnings st; cbn.
  - exists [], st. rewrite !app_nil_r. reflexivity.
  - destruct (filterMatching_returns plugins filePath content st Htests)
      as (matched & s1 & Hm). rewrite Hm.
    rewrite map_app, map_map. cbn [warningOf fst snd].
    change (List.map (fun x => warningFor filePath x)) with (List.map (warningFor filePath)).
    destruct (Nat.eqb_spec (length matched) 0) as [Hlen | Hlen].
    + destruct matched; [| discriminate]. cbn [thrown List.map app].
      unfold stateAfter. cbn [runMatched snd].
      destruct (IH endpoints warnings s1) as (ex & s2 & ->). eauto.
    + destruct (runMatched_app matched filePath content endpoints warnings s1)
        as (ex1 & ->).
      destruct (IH (endpoints ++ ex1)%list
                  (warnings ++ List.map (warningFor filePath)
                                 (thrown matched filePath content s1))%list
                  (stateAfter matched filePath content s1))
        as (ex & s3 & ->).
      exists (ex1 ++ ex)%list, s3. rewrite !app_assoc. reflexivity.
Qed.

Lemma scanBackendProject_returns plugins files now root st :
  testsReturn plugins ->
  exists d st', scanBackendProject now root files plugins st = (Return d, st').
Proof.
  intros Htests. unfold scanBackendProject.
  destruct (scanFiles_spec plugins files [] [] st Htests) as (ex & st' & ->).
  eauto.
Qed.

End ScanProperties.

(** ** The extractors: what every emitted endpoint satisfies *)

Lemma whileExec_invariant {A : Type} (P : A -> Prop) (g : GlobalRegExp) (s : string)
    (body : ExecArray -> A -> LastIndex -> A * LastIndex)
    (fuel : nat) (acc : A) (st : LastIndex) :
  P acc ->
  (forall a acc st, P acc -> P (fst (body a acc st))) ->
  P (fst (whileExec g s body fuel acc st)).
Proof.
  intros Hacc Hbody. revert acc st Hacc.
  induction fuel as [| fuel IH]; intros acc st Hacc; cbn; [exact Hacc |].
  destruct (exec g s st) as [[a |] st']; [| exact Hacc].
  specialize (Hbody a acc st' Hacc).
  destruct (body a acc st') as [acc' st'']. apply IH. exact Hbody.
Qed.

Lemma supported_In (method : option string) :
  supported method = true -> In (default "" method) HTTP_METHODS.
Proof.
  destruct method as [v |]; cbn [supported default]; [| discriminate].
  intros H. apply existsb_exists in H as (x & Hx & Heq).
  apply String.eqb_eq in Heq. subst x. exact Hx.
Qed.

Lemma Forall_snoc {A : Type} (P : A -> Prop) (l : list A) (x : A) :
  Forall P l -> P x -> Forall P (l ++ [x]).
Proof. intros Hl Hx. apply Forall_app. split; [exact Hl | constructor; [exact Hx | constructor]]. Qed.

Section ExtractorProperties.
Variable JSON_parse : string -> option JsonValue.

(** The route objects an extractor can push: a supported method, and
    the fields of some parsed documentation block. *)
Definition emitted (Q : DocBlock -> Prop) (e : EndpointInfo) : Prop :=
  exists method routePath doc framework filePath,
    e = mkRoute method routePath doc framework filePath
    /\ In method HTTP_METHODS /\ Q doc.

(** The documentation found for any match of the file satisfies [Q]. *)
Definition docsSatisfy (content : string) (Q : DocBlock -> Prop) : Prop :=
  forall index st, Q (fst (parseDocBlock JSON_parse (extractDocBlock content index) st)).

Lemma extractExpressRoutes_emitted (Q : DocBlock -> Prop) filePath content st :
  docsSatisfy content Q ->
  Forall (emitted Q) (fst (extractExpressRoutes JSON_parse filePath content st)).
Proof.
  intros HQ. unfold extractExpressRoutes.
  apply whileExec_invariant; [constructor |].
  intros a acc s Hacc.
  destruct (supported (methodOf a)) eqn:Hm; cbn [negb orb]; [| exact Hacc].
  destruct (Js.truthy (default "" (group a 2))); cbn [negb]; [| exact Hacc].
  specialize (HQ (index a) s).
  destruct (parseDocBlock JSON_parse (extractDocBlock content (index a)) s) as [doc s'].
  cbn [fst] in *. apply Forall_snoc; [exact Hacc |].
  eexists _, _, doc, _, _. split; [reflexivity |]. split; [apply supported_In, Hm | exact HQ].
Qed.

Lemma extractFastifyRoutes_emitted (Q : DocBlock -> Prop) filePath content st :
  docsSatisfy content Q ->
  Forall (emitted Q) (fst (extractFastifyRoutes JSON_parse filePath content st)).
Proof.
  intros HQ. unfold extractFastifyRoutes.
  apply whileExec_invariant; [constructor |].
  intros a acc s Hacc.
  destruct (supported (methodOf a)) eqn:Hm; cbn [negb orb]; [| exact Hacc].
  destruct (Js.truthy (default "" (group a 2))); cbn [negb]; [| exact Hacc].
  specialize (HQ (index a) s).
  destruct (parseDocBlock JSON_parse (extractDocBlock content (index a)) s) as [doc s'].
  cbn [fst] in *. apply Forall_snoc; [exact Hacc |].
  eexists _, _, doc, _, _. split; [reflexivity |]. split; [apply supported_In, Hm | exact HQ].
Qed.

Lemma extractNestRoutes_emitted (Q : DocBlock -> Prop) filePath content st :
  docsSatisfy content Q ->
  Forall (emitted Q) (fst (extractNestRoutes JSON_parse filePath content st)).
Proof.
  intros HQ. unfold extractNestRoutes.
  apply whileExec_invariant; [constructor |].
  intros a acc s Hacc.
  destruct (supported (methodOf a)) eqn:Hm; cbn [negb]; [| exact Hacc].
  specialize (HQ (index a) s).
  destruct (parseDocBlock JSON_parse (extractDocBlock content (index a)) s) as [doc s'].
  cbn [fst] in *. apply Forall_snoc; [exact Hacc |].
  eexists _, _, doc, _, _. split; [reflexivity |]. split; [apply supported_In, Hm | exact HQ].
Qed.

(** Each object pushed by an extractor of the built-in plugins is
    emitted in the sense above. *)
Lemma builtin_extract_emitted (p : FrameworkPlugin LastIndex) filePath content st :
  In p (createDefaultPlugins JSON_parse) ->
  exists eps st', plugin_extract p filePath content st = (Return eps, st')
                  /\ Forall (emitted (fun _ => True)) eps.
Proof.
  intros [<- | [<- | [<- | []]]]; cbn [plugin_extract expressPlugin fastifyPlugin nestjsPlugin];
    unfold total.
  - pose proof (extractExpressRoutes_emitted (fun _ => True) filePath content st
                  (fun _ _ => I)) as H.
    destruct (extractExpressRoutes JSON_parse filePath content st) as [eps st']. eauto.
  - pose proof (extractFastifyRoutes_emitted (fun _ => True) filePath content st
                  (fun _ _ => I)) as H.
    destruct (extractFastifyRoutes JSON_parse filePath content st) as [eps st']. eauto.
  - pose proof (extractNestRoutes_emitted (fun _ => True) filePath content st
                  (fun _ _ => I)) as H.
    destruct (extractNestRoutes JSON_parse filePath content st) as [eps st']. eauto.
Qed.

Lemma builtin_tests_return : testsReturn (createDefaultPlugins JSON_parse).
Proof.
  intros p filePath content st [<- | [<- | [<- | []]]];
    cbn [plugin_match expressPlugin fastifyPlugin nestjsPlugin]; unfold total.
  - destruct (test EXPRESS_MARKER_REGEX content); [| eauto].
    destruct (testGlobal ROUTE_METHOD content st). eauto.
  - destruct (test FASTIFY_MARKER_REGEX content); [| eauto].
    destruct (testGlobal FASTIFY_ROUTE content st). eauto.
  - eauto.
Qed.
End ExtractorProperties.

(** The endpoints of a scan all come out of extractions. *)
Section ScanEndpoints.
Context {S : Type}.
Variable P : EndpointInfo -> Prop.
Variable plugins : list (FrameworkPlugin S).
Hypothesis extractions :
  forall p filePath content st eps st',
    In p plugins -> plugin_extract p filePath content st = (Return eps, st') ->
    Forall P eps.

Lemma runMatched_endpoints matched filePath content endpoints warnings st :
  (forall p, In p matched -> In p plugins) ->
  Forall P endpoints ->
  Forall P (fst (fst (runMatched matched filePath content endpoints warnings st))).
Proof.
  revert endpoints warnings st.
  induction matched as [| p rest IH]; intros endpoints warnings st Hin Hacc; cbn;
    [exact Hacc |].
  destruct (plugin_extract p filePath content st) as [[eps |] st'] eqn:Hp.
  - apply IH; [intros q Hq; apply Hin; right; exact Hq |].
    apply Forall_app. split; [exact Hacc |].
    eapply extractions; [apply Hin; left; reflexivity | exact Hp].
  - apply IH; [intros q Hq; apply Hin; right; exact Hq | exact Hacc].
Qed.

Lemma scanFiles_endpoints files endpoints warnings st eps ws st' :
  Forall P endpoints ->
  scanFiles plugins files endpoints warnings st = (Return (eps, ws), st') ->
  Forall P eps.
Proof.
  revert endpoints warnings st.
  induction files as [| [filePath content] rest IH]; intros endpoints warnings st Hacc H;
    cbn in H.
  - injection H as <- _ _. exact Hacc.
  - destruct (filterMatching plugins filePath content st) as [[matched |] s1] eqn:Hm;
      [| discriminate].
    destruct (length matched =? 0); [eapply IH; eassumption |].
    pose proof (runMatched_endpoints matched filePath content endpoints warnings s1
                  (fun p Hp => proj1 (filterMatching_sound _ _ _ _ _ _ Hm p Hp)) Hacc) as Hr.
    destruct (runMatched matched filePath content endpoints warnings s1) as [[e' w'] s2].
    eapply IH; [exact Hr | exact H].
Qed.

Lemma scanBackendProject_endpoints now root files st d st' :
  scanBackendProject now root files plugins st = (Return d, st') ->
  Forall P (endpoints d).
Proof.
  unfold scanBackendProject.
  destruct (scanFiles plugins files [] [] st) as [[[eps ws] |] s1] eqn:H; [| discriminate].
  intros Hd. injection Hd as <- _. cbn.
  eapply scanFiles_endpoints; [constructor | exact H].
Qed.
End ScanEndpoints.

(** ** Patterns that match nowhere in a text *)

Definition isNone {A : Type} (o : option A) : bool :=
  match o with None => true | Some _ => false end.

Definition matchesNowhere (r : Regex) (s : string) : bool :=
  forallb (fun from => isNone (matchFrom r s from)) (List.seq 0 (Datatypes.S (String.length s))).

Lemma matchesNowhere_spec (r : Regex) (s : string) :
  matchesNowhere r s = true -> forall from, matchFrom r s from = None.
Proof.
  intros H from. destruct (Nat.ltb_spec (String.length s) from) as [Hlt | Hle].
  - unfold matchFrom. apply Nat.ltb_lt in Hlt. rewrite Hlt. reflexivity.
  - unfold matchesNowhere in H. rewrite forallb_forall in H.
    specialize (H from). destruct (matchFrom r s from); [| reflexivity].
    discriminate H. apply in_seq. lia.
Qed.

Lemma whileExec_nowhere {A : Type} (g : GlobalRegExp) (s : string)
    (body : ExecArray -> A -> LastIndex -> A * LastIndex)
    (fuel : nat) (acc : A) (st : LastIndex) :
  matchesNowhere (pattern g) s = true ->
  fst (whileExec g s body fuel acc st) = acc.
Proof.
  intros H. destruct fuel as [| fuel]; cbn; [reflexivity |].
  unfold exec, execGlobal. rewrite (matchesNowhere_spec _ _ H). reflexivity.
Qed.

(** ** Sample files *)

Definition lines (l : list string) : string :=
  Js.join (String (ascii_of_nat 10) "") l.






(** ** Presence of [requestBodySchema] and [response] *)










(** ** The code on concrete trees

    In the sample texts a [~] stands for a double quote (see [Js.dq]). *)

Definition endpointsOf {S : Type} (r : Completion ScanResult * S) : option (list EndpointInfo) :=
  match fst r with
  | Return d => Some (endpoints d)
  | Throw => None
  end.

(** The scenario of the specification: one documented [get] call, in a
    file that mentions express. *)
Definition usersFile : string :=
  Js.dq (lines ["const app = express();";
                "/** List users";
                " * @param {string} status";
                " * @responseExample 200 {~users~:[]}";
                " */";
                "get(~/users~, handler)"]).

(** The object-literal and the annotation examples of the README. *)
Definition createUserFile : string :=
  Js.dq (lines ["/**";
                " * Create user";
                " * @requestBody {~name~:~string~}";
                " * @responseExample 201 {~id~:1,~name~:~Ada~}";
                " */";
                "fastify.route({";
                "  method: ~POST~,";
                "  url: ~/users~,";
                "  handler: async (req, res) => res.send({ id: 1, name: ~Ada~ })";
                "});"]).

Definition getUserFile : string :=
  Js.dq (lines ["@Controller(~users~)";
                "export class UsersController {";
                "  /**";
                "   * Get user";
                "   * @param {number} id";
                "   */";
                "  @Get(~:id~)";
                "  getUser() {}";
                "}"]).

(** C1, the code on the scenario of the specification.  A scan with the
    built-in plugins of a tree holding only that file, from a freshly
    loaded module, yields no endpoint: the applicability test of the
    express plugin has moved [lastIndex] of the route pattern past the only
    declaration before the extractor starts.  The extractor run on its
    own yields one endpoint, whose description is not the text of the
    block but that text with its delimiters.  The object-literal example
    is lost in the same way, and the annotation example is found, again
    with the delimiters in its description. *)
Theorem single_documented_route_scan :
  endpointsOf (scanBackendProject "2026-02-09T00:00:00.000Z" "/p"
                 [("/p/users.js", usersFile)] (createDefaultPlugins Json.parse) fresh)
    = Some []
  /\ fst (extractExpressRoutes Json.parse "/p/users.js" usersFile fresh)
     = [ mkEndpoint "GET" "/users" (Some "/** List users /")
           [mkParameter "status" TString true]
           (Some JNull)
           (Some (NotNull (mkResponse 200 (JObject [("users", JArray [])]))))
           (Some "express") (Some "/p/users.js") None ]
  /\ endpointsOf (scanBackendProject "2026-02-09T00:00:00.000Z" "/p"
                    [("/p/users.js", createUserFile)] (createDefaultPlugins Json.parse) fresh)
     = Some []
  /\ endpointsOf (scanBackendProject "2026-02-09T00:00:00.000Z" "/p"
                    [("/p/users.controller.ts", getUserFile)]
                    (createDefaultPlugins Json.parse) fresh)
     = Some [ mkEndpoint "GET" ":id" (Some "/** Get user /")
                [mkParameter "id" TNumber true]
                (Some JNull) (Some Null)
                (Some "nestjs") (Some "/p/users.controller.ts") None ].
Proof. repeat split; vm_compute; reflexivity. Qed.

(** A controller with one documented route. *)
Definition controllerFile : string :=
  Js.dq (lines ["@Controller('users')";
                "export class UsersController {";
                "  /** Get user";
                "   * @responseExample 200 {~id~:1}";
                "   */";
                "  @Get(':id')";
                "  getUser() {}";
                "}"]).

(** C2, the code on two scans in a row.  The first scan of a tree
    holding only [controllerFile] finds the response example; the second
    scan of the same tree, run in the state the first one left, reports
    [null] for it: the single [exec] on the response pattern of the first
    scan left its [lastIndex] inside the block. *)
Theorem second_scan_loses_response :
  let tree := [("/p/users.controller.ts", controllerFile)] in
  let first := scanBackendProject "t1" "/p" tree (createDefaultPlugins Json.parse) fresh in
  let second := scanBackendProject "t2" "/p" tree (createDefaultPlugins Json.parse) (snd first) in
  option_map (List.map response) (endpointsOf first)
    = Some [Some (NotNull (mkResponse 200 (JObject [("id", ofNat 1)])))]
  /\ option_map (List.map response) (endpointsOf second) = Some [Some Null]
  /\ endpointsOf first <> endpointsOf second.
Proof.
  cbn zeta. split; [| split].
  - vm_compute. reflexivity.
  - vm_compute. reflexivity.
  - vm_compute. discriminate.
Qed.

(** A controller whose first handler has a decorator without a path
    argument. *)
Definition bareDecoratorFile : string :=
  lines ["@Controller('users')";
         "export class UsersController {";
         "  @Get()";
         "  findAll() {}";
         "}"].

Definition emptyPathFile : string :=
  lines ["@Controller('users')";
         "export class UsersController {";
         "  @Get('')";
         "  findAll() {}";
         "}"].

(** C8, the code on a decorator without a path argument.  [@Get()] is
    not matched at all, in any state of the patterns: the pattern asks for
    an opening quote.  The default [/] is reached only by an empty quoted
    path. *)
Theorem bare_decorator_yields_nothing :
  (forall (JSON_parse : string -> option JsonValue) (filePath : string) (st : LastIndex),
      fst (extractNestRoutes JSON_parse filePath bareDecoratorFile st) = [])
  /\ endpointsOf (scanBackendProject "t" "/p" [("/p/users.controller.ts", bareDecoratorFile)]
                    (createDefaultPlugins Json.parse) fresh) = Some []
  /\ option_map (List.map path)
       (endpointsOf (scanBackendProject "t" "/p" [("/p/users.controller.ts", emptyPathFile)]
                       (createDefaultPlugins Json.parse) fresh)) = Some ["/"].
Proof.
  split; [| split].
  - intros JSON_parse filePath st. apply whileExec_nowhere. vm_compute. reflexivity.
  - vm_compute. reflexivity.
  - vm_compute. reflexivity.
Qed.

(** A controller with two routes, each documented with a request body
    and a response example that are not JSON. *)
Definition twoRoutesFile : string :=
  lines ["@Controller('users')";
         "export class UsersController {";
         "  /** Create user @responseExample 500 oops @requestBody name: string */";
         "  @Post('new')";
         "  create() {}";
         "  /** Update user @responseExample 500 oops @requestBody name: string */";
         "  @Put(':id')";
         "  update() {}";
         "}"].

(** C9, the code on two documented routes.  Nothing throws, and the
    first route gets the raw texts; the second route, documented the same
    way, gets [null] for both: the annotations of its block are not found,
    because each pattern resumes at the [lastIndex] its match in the first
    block left. *)
Theorem second_block_annotations_dropped :
  let scan := scanBackendProject "t" "/p" [("/p/users.controller.ts", twoRoutesFile)]
                (createDefaultPlugins Json.parse) fresh in
  option_map (List.map requestBodySchema) (endpointsOf scan)
    = Some [Some (JObject [("schema", JString "name: string")]); Some JNull]
  /\ option_map (List.map response) (endpointsOf scan)
    = Some [Some (NotNull (mkResponse 500 (JString "oops"))); Some Null].
Proof. cbn zeta. split; vm_compute; reflexivity. Qed.

(** *** The snapshot writer on concrete scans *)

Definition healthIn (file : string) : EndpointInfo :=
  mkEndpoint "GET" "health" None [] (Some JNull) (Some Null)
    (Some "nestjs") (Some file) None.

(** Two controllers declare the same route. *)
Definition collidingScan : ScanResult :=
  mkScan (Some "t") (Some "/p")
    [healthIn "/p/a.controller.ts"; healthIn "/p/b.controller.ts"] (Some []).

Definition distinctScan : ScanResult :=
  mkScan (Some "t") (Some "/p")
    [healthIn "/p/a.controller.ts";
     mkEndpoint "POST" "users" (Some "Create user") [mkParameter "name" TString true]
       (Some (JObject [("schema", JString "name: string")])) (Some Null)
       (Some "nestjs") (Some "/p/b.controller.ts") None]
    (Some []).

Definition healthController : string :=
  lines ["@Controller()";
         "export class HealthController {";
         "  @Get('health')";
         "  check() {}";
         "}"].

(** Such a scan is what two controller files with the same route give. *)
Example collidingScan_from_tree :
  endpointsOf (scanBackendProject "t" "/p"
                 [("/p/a.controller.ts", healthController);
                  ("/p/b.controller.ts", healthController)]
                 (createDefaultPlugins Json.parse) fresh)
  = Some (endpoints collidingScan).
Proof. vm_compute. reflexivity. Qed.

(** C4, as stated, fails when two endpoints share a key: of the two
    endpoints of [collidingScan] only the second is counted as unchanged
    when the same scan is persisted again. *)
Lemma round_trip_with_colliding_keys :
  let fs1 := snd (writeOutputJson joinPath collidingScan (mkOptions "/p" None) ∅) in
  let r := fst (writeOutputJson joinPath collidingScan (mkOptions "/p" (Some true)) fs1) in
  endpointsWritten r = 2 /\ endpointsUnchanged r = 1
  /\ endpointsUnchanged r <> length (endpoints collidingScan).
Proof. cbn zeta. split; [| split]; vm_compute; [reflexivity | reflexivity | discriminate]. Qed.

Lemma distinctScan_keysAgree : keysAgree (endpoints distinctScan).
Proof.
  intros e1 e2 [<- | [<- | []]] [<- | [<- | []]] H;
    try reflexivity; vm_compute in H; discriminate.
Qed.

Lemma incremental_round_trip_witness :
  keysAgree (endpoints distinctScan)
  /\ (let fs1 := snd (writeOutputJson joinPath distinctScan (mkOptions "/p" None) ∅) in
      let r := fst (writeOutputJson joinPath distinctScan (mkOptions "/p" (Some true)) fs1) in
      endpointsUnchanged r = endpointsWritten r
      /\ endpointsWritten r = length (endpoints distinctScan)).
Proof.
  split; [exact distinctScan_keysAgree |].
  apply (incremental_round_trip joinPath distinctScan "/p" None ∅).
  exact distinctScan_keysAgree.
Defined.

Lemma writeOutputJson_incremental_keeps_all_witness :
  let fs := <[snapshotPath joinPath "/p" := collidingScan]> (∅ : FileSystem) in
  readExisting (snapshotPath joinPath "/p") fs = Some collidingScan
  /\ (let r := writeOutputJson joinPath distinctScan (mkOptions "/p" (Some true)) fs in
      option_map endpoints (readExisting (outputPath (fst r)) (snd r))
        = Some (endpoints distinctScan)
      /\ endpointsWritten (fst r) = length (endpoints distinctScan)).
Proof.
  cbn zeta. split; [apply lookup_insert_eq |].
  apply (writeOutputJson_incremental_keeps_all joinPath distinctScan collidingScan "/p").
  apply lookup_insert_eq.
Defined.

(** *** A plugin that throws *)

Definition throwingPlugin : FrameworkPlugin unit :=
  mkPlugin "boom" (fun _ _ st => (Return true, st)) (fun _ _ st => (Throw, st)).

Definition healthPlugin : FrameworkPlugin unit :=
  mkPlugin "health"
    (fun filePath _ st => (Return (Js.endsWith ".ts" filePath), st))
    (fun filePath _ st => (Return [healthIn filePath], st)).


Definition sampleTree : list (string * string) :=
  [("/p/a.ts", "x"); ("/p/b.js", "y")].


(** On that tree: both files are scanned, the throwing plugin gives one
    warning for each, and the endpoint of the other plugin is kept. *)
Example sampleTree_scan :
  fst (scanBackendProject "t" "/p" sampleTree [throwingPlugin; healthPlugin] tt)
  = Return (mkScan (Some "t") (Some "/p") [healthIn "/p/a.ts"]
              (Some ["Failed to parse /p/a.ts with boom";
                     "Failed to parse /p/b.js with boom"])).
Proof. vm_compute. reflexivity. Qed.

(** *** A file without documentation *)

Definition plainFile : string :=
  lines ["const router = express.Router();";
         "router.get('/health', handler);";
         "router.post('/users', create);"].





(** * Further properties of the snapshot writer *)

(** The last endpoint of a list that has the key [k]. *)
Fixpoint lastWithKey (k : string) (eps : list EndpointInfo) : option EndpointInfo :=
  match eps with
  | [] => None
  | e :: rest =>
      match lastWithKey k rest with
      | Some e' => Some e'
      | None => if String.eqb (endpointKey e) k then Some e else None
      end
  end.

Definition pairOf (endpoint : EndpointInfo) : string * string :=
  (endpointKey endpoint, normalizeForCompare endpoint).

Lemma fold_insert_lookup (eps : list EndpointInfo) (acc : gmap string string) (k : string) :
  fold_left (fun acc kv => <[fst kv := snd kv]> acc) (List.map pairOf eps) acc !! k
  = match lastWithKey k eps with
    | Some e => Some (normalizeForCompare e)
    | None => acc !! k
    end.
Proof.
  revert acc. induction eps as [| e rest IH]; intros acc; cbn; [reflexivity |].
  rewrite IH. destruct (lastWithKey k rest); [reflexivity |].
  destruct (String.eqb_spec (endpointKey e) k) as [<- | Hne].
  - apply lookup_insert_eq.
  - apply lookup_insert_ne. exact Hne.
Qed.

(** The lookup table built from a snapshot holds, under each key, the
    serialized form of the last endpoint with that key. *)
Lemma tableOf_lookup (eps : list EndpointInfo) (k : string) :
  tableOf eps !! k = option_map normalizeForCompare (lastWithKey k eps).
Proof.
  unfold tableOf, newMap. fold pairOf.
  change (List.map (fun endpoint => (endpointKey endpoint, normalizeForCompare endpoint)) eps)
    with (List.map pairOf eps).
  rewrite fold_insert_lookup. destruct (lastWithKey k eps); [reflexivity |].
  apply lookup_empty.
Qed.

(** An endpoint counts as unchanged against a snapshot when the last
    endpoint of the snapshot with its key has its serialized form. *)
Definition unchangedAgainst (prior : list EndpointInfo) (e : EndpointInfo) : bool :=
  match lastWithKey (endpointKey e) prior with
  | Some e' => String.eqb (normalizeForCompare e') (normalizeForCompare e)
  | None => false
  end.

Lemma unchangedIn_tableOf (prior : list EndpointInfo) (e : EndpointInfo) :
  unchangedIn (tableOf prior) e = unchangedAgainst prior e.
Proof.
  unfold unchangedIn, unchangedAgainst. rewrite tableOf_lookup.
  destruct (lastWithKey (endpointKey e) prior); reflexivity.
Qed.

Lemma filter_ext_eq {A : Type} (p q : A -> bool) (l : list A) :
  (forall x, p x = q x) -> List.filter p l = List.filter q l.
Proof.
  intros H. induction l as [| x l IH]; cbn; [reflexivity |].
  rewrite H, IH. reflexivity.
Qed.

Lemma filter_length_le {A : Type} (p : A -> bool) (l : list A) :
  length (List.filter p l) <= length l.
Proof. induction l as [| x l IH]; cbn; [lia |]. destruct (p x); cbn; lia. Qed.

Section MoreOutputProperties.
Variable path_join : string -> string -> string.

(** The count of unchanged endpoints, in every case. *)
Lemma writeOutputJson_unchanged (data : ScanResult) (options : OutputWriteOptions)
    (fs : FileSystem) :
  endpointsUnchanged (fst (writeOutputJson path_join data options fs))
  = match incremental options, readExisting (snapshotPath path_join (opt_rootDir options)) fs with
    | Some true, Some existing =>
        length (List.filter (unchangedAgainst (endpoints existing)) (endpoints data))
    | _, _ => 0
    end.
Proof.
  unfold writeOutputJson, snapshotPath.
  destruct (incremental options) as [[|] |]; try reflexivity.
  destruct (readExisting _ fs) as [existing |]; [| reflexivity].
  rewrite reconcile_spec. cbn. fold (tableOf (endpoints existing)).
  f_equal. apply filter_ext_eq. intros e. apply unchangedIn_tableOf.
Qed.


(** Without the incremental flag, or without a snapshot to read, no
    endpoint is reported as unchanged. *)
Theorem no_history_reports_no_unchanged :
  forall (data : ScanResult) (options : OutputWriteOptions) (fs : FileSystem),
    incremental options <> Some true
    \/ readExisting (snapshotPath path_join (opt_rootDir options)) fs = None ->
    endpointsUnchanged (fst (writeOutputJson path_join data options fs)) = 0.
Proof.
  intros data options fs H. rewrite writeOutputJson_unchanged.
  destruct (incremental options) as [[|] |]; try reflexivity.
  destruct H as [H | ->]; [congruence | reflexivity].
Qed.

(** The unchanged endpoints are never more than the endpoints written. *)
Theorem unchanged_at_most_written :
  forall (data : ScanResult) (options : OutputWriteOptions) (fs : FileSystem),
    let r := fst (writeOutputJson path_join data options fs) in
    endpointsUnchanged r <= endpointsWritten r.
Proof.
  intros data options fs. cbn zeta.
  destruct (writeOutputJson_writes path_join data options fs) as (_ & _ & ->).
  rewrite writeOutputJson_unchanged.
  destruct (incremental options) as [[|] |]; try lia.
  destruct (readExisting _ fs); [apply filter_length_le | lia].
Qed.

(** In incremental mode against a snapshot, the endpoints reported as
    unchanged are those of the new scan whose serialized form is that of
    the last endpoint of the snapshot with the same key. *)
Theorem unchanged_counts_against_last_of_key :
  forall (data existing : ScanResult) (root : string) (fs : FileSystem),
    readExisting (snapshotPath path_join root) fs = Some existing ->
    endpointsUnchanged (fst (writeOutputJson path_join data (mkOptions root (Some true)) fs))
    = length (List.filter (unchangedAgainst (endpoints existing)) (endpoints data)).
Proof.
  intros data existing root fs H. rewrite writeOutputJson_unchanged.
  cbn [incremental opt_rootDir]. rewrite H. reflexivity.
Qed.
End MoreOutputProperties.

(** ** Keys and changes *)

(** For the four supported methods the key determines the method and
    the path. *)
Theorem endpointKey_determines_method_and_path :
  forall e1 e2 : EndpointInfo,
    In (method e1) HTTP_METHODS -> In (method e2) HTTP_METHODS ->
    endpointKey e1 = endpointKey e2 ->
    method e1 = method e2 /\ path e1 = path e2.
Proof.
  intros e1 e2 H1 H2. unfold endpointKey.
  destruct e1 as [m1 p1 ? ? ? ? ? ? ?], e2 as [m2 p2 ? ? ? ? ? ? ?]. cbn in *.
  destruct H1 as [<- | [<- | [<- | [<- | []]]]];
    destruct H2 as [<- | [<- | [<- | [<- | []]]]];
    intros H; try discriminate H; (split; [reflexivity | injection H as H; exact H]).
Qed.

Lemma lastWithKey_In (k : string) (eps : list EndpointInfo) (e : EndpointInfo) :
  lastWithKey k eps = Some e -> In e eps /\ endpointKey e = k.
Proof.
  induction eps as [| x rest IH]; cbn; [discriminate |].
  destruct (lastWithKey k rest) as [e' |].
  - intros H. injection H as ->. destruct (IH eq_refl). auto.
  - destruct (String.eqb_spec (endpointKey x) k); [| discriminate].
    intros H. injection H as ->. auto.
Qed.

Lemma lastWithKey_found (eps : list EndpointInfo) (e : EndpointInfo) :
  In e eps -> exists e', lastWithKey (endpointKey e) eps = Some e'.
Proof.
  induction eps as [| x rest IH]; cbn; [intros [] |].
  intros [-> | H].
  - destruct (lastWithKey (endpointKey e) rest); [eauto |].
    rewrite String.eqb_refl. eauto.
  - destruct (IH H) as [e' ->]. eauto.
Qed.

Lemma NoDup_keys_same (eps : list EndpointInfo) (e1 e2 : EndpointInfo) :
  List.NoDup (List.map endpointKey eps) -> In e1 eps -> In e2 eps ->
  endpointKey e1 = endpointKey e2 -> e1 = e2.
Proof.
  induction eps as [| x rest IH]; cbn; [intros _ [] |].
  intros Hnd H1 H2 Hk. apply List.NoDup_cons_iff in Hnd as [Hx Hnd].
  destruct H1 as [-> | H1], H2 as [-> | H2]; auto.
  - exfalso. apply Hx. rewrite Hk. apply in_map. exact H2.
  - exfalso. apply Hx. rewrite <- Hk. apply in_map. exact H1.
Qed.

(** With distinct keys in the snapshot, the endpoint found under the key
    of one of its endpoints is that endpoint. *)
Lemma lastWithKey_own (eps : list EndpointInfo) (e : EndpointInfo) :
  List.NoDup (List.map endpointKey eps) -> In e eps ->
  lastWithKey (endpointKey e) eps = Some e.
Proof.
  intros Hnd He. destruct (lastWithKey_found eps e He) as [e' H].
  rewrite H. f_equal. destruct (lastWithKey_In _ _ _ H) as [He' Hk].
  eapply NoDup_keys_same; eassumption.
Qed.

Lemma length_filter_app {A : Type} (p : A -> bool) (l1 l2 : list A) :
  length (List.filter p (l1 ++ l2)) = length (List.filter p l1) + length (List.filter p l2).
Proof. rewrite List.filter_app, length_app. reflexivity. Qed.

Section ChangeDetection.
Variable path_join : string -> string -> string.

(** When the snapshot has distinct keys and the new scan differs from it
    in one endpoint only, which keeps its key and changes its serialized
    form (a new description, say), every endpoint but that one is
    reported as unchanged, and all are written. *)
Theorem one_changed_endpoint_is_not_counted :
  forall (before after : list EndpointInfo) (old new : EndpointInfo)
         (existing data : ScanResult) (root : string) (fs : FileSystem),
    endpoints existing = (before ++ old :: after)%list ->
    endpoints data = (before ++ new :: after)%list ->
    List.NoDup (List.map endpointKey (endpoints existing)) ->
    endpointKey new = endpointKey old ->
    normalizeForCompare new <> normalizeForCompare old ->
    readExisting (snapshotPath path_join root) fs = Some existing ->
    let r := fst (writeOutputJson path_join data (mkOptions root (Some true)) fs) in
    endpointsUnchanged r = length before + length after
    /\ endpointsWritten r = Datatypes.S (length before + length after).
Proof.
  intros before after old new existing data root fs Hex Hdata Hnd Hkey Hser Hread.
  cbn zeta.
  destruct (writeOutputJson_writes path_join data (mkOptions root (Some true)) fs)
    as (_ & _ & ->).
  rewrite writeOutputJson_unchanged. cbn [incremental opt_rootDir]. rewrite Hread.
  rewrite Hdata, length_app. cbn [length]. split; [| lia].
  assert (forall e, In e (endpoints existing) ->
                    unchangedAgainst (endpoints existing) e = true) as Hown.
  { intros e He. unfold unchangedAgainst. rewrite (lastWithKey_own _ _ Hnd He).
    apply String.eqb_refl. }
  assert (unchangedAgainst (endpoints existing) new = false) as Hnew.
  { unfold unchangedAgainst. rewrite Hkey, (lastWithKey_own _ old Hnd).
    - apply String.eqb_neq. congruence.
    - rewrite Hex. apply in_or_app. right. left. reflexivity. }
  rewrite length_filter_app. cbn [List.filter]. rewrite Hnew.
  rewrite !filter_all; [reflexivity | |].
  - intros e He. apply Hown. rewrite Hex. apply in_or_app. right. right. exact He.
  - intros e He. apply Hown. rewrite Hex. apply in_or_app. left. exact He.
Qed.

Lemma filter_length_Permutation {A : Type} (p : A -> bool) (l l' : list A) :
  Permutation l l' -> length (List.filter p l) = length (List.filter p l').
Proof.
  intros H. induction H as [| x l l' _ IH | x y l | l l' l'' _ IH1 _ IH2]; cbn.
  - reflexivity.
  - destruct (p x); cbn; lia.
  - destruct (p x), (p y); reflexivity.
  - lia.
Qed.

(** The counts do not depend on the order of the endpoints in the new
    scan. *)
Theorem counts_ignore_order_of_new_scan :
  forall (data data' : ScanResult) (options : OutputWriteOptions) (fs : FileSystem),
    Permutation (endpoints data) (endpoints data') ->
    let r := fst (writeOutputJson path_join data options fs) in
    let r' := fst (writeOutputJson path_join data' options fs) in
    endpointsUnchanged r = endpointsUnchanged r'
    /\ endpointsWritten r = endpointsWritten r'.
Proof.
  intros data data' options fs Hperm. cbn zeta.
  destruct (writeOutputJson_writes path_join data options fs) as (_ & _ & ->).
  destruct (writeOutputJson_writes path_join data' options fs) as (_ & _ & ->).
  rewrite !writeOutputJson_unchanged. split; [| apply Permutation_length, Hperm].
  destruct (incremental options) as [[|] |]; try reflexivity.
  destruct (readExisting _ fs); [| reflexivity].
  apply filter_length_Permutation, Hperm.
Qed.
End ChangeDetection.

(** * Further properties of the scan *)

Section ScanComposition.
Context {S : Type}.

(** The inner loop over two lists of plugins is the loop over the
    first followed by the loop over the second. *)
Lemma runMatched_concat (ps1 ps2 : list (FrameworkPlugin S)) (filePath content : string)
    (endpoints : list EndpointInfo) (warnings : list string) (st : S) :
  runMatched (ps1 ++ ps2) filePath content endpoints warnings st
  = let '(e1, w1, st1) := runMatched ps1 filePath content endpoints warnings st in
    runMatched ps2 filePath content e1 w1 st1.
Proof.
  revert endpoints warnings st.
  induction ps1 as [| p rest IH]; intros endpoints warnings st; cbn; [reflexivity |].
  destruct (plugin_extract p filePath content st) as [[extracted |] st']; apply IH.
Qed.

Lemma scanFiles_concat (plugins : list (FrameworkPlugin S))
    (files1 files2 : list (string * string))
    (endpoints : list EndpointInfo) (warnings : list string) (st : S) :
  scanFiles plugins (files1 ++ files2) endpoints warnings st
  = match scanFiles plugins files1 endpoints warnings st with
    | (Return (e1, w1), st1) => scanFiles plugins files2 e1 w1 st1
    | (Throw, st1) => (Throw, st1)
    end.
Proof.
  revert endpoints warnings st.
  induction files1 as [| [filePath content] rest IH]; intros endpoints warnings st; cbn;
    [reflexivity |].
  destruct (filterMatching plugins filePath content st) as [[matched |] s1]; [| reflexivity].
  destruct (length matched =? 0); [apply IH |].
  destruct (runMatched matched filePath content endpoints warnings s1) as [[e' w'] s2].
  apply IH.
Qed.

Lemma runMatched_shift (matched : list (FrameworkPlugin S)) (filePath content : string)
    (endpoints : list EndpointInfo) (warnings : list string) (st : S) :
  runMatched matched filePath content endpoints warnings st
  = let '(e0, w0, st') := runMatched matched filePath content [] [] st in
    ((endpoints ++ e0)%list, (warnings ++ w0)%list, st').
Proof.
  revert endpoints warnings st.
  induction matched as [| p rest IH]; intros endpoints warnings st; cbn.
  - rewrite !app_nil_r. reflexivity.
  - destruct (plugin_extract p filePath content st) as [[extracted |] st'].
    + rewrite (IH (endpoints ++ extracted)%list warnings st'), (IH extracted [] st').
      destruct (runMatched rest filePath content [] [] st') as [[e0 w0] s2].
      rewrite app_assoc. reflexivity.
    + rewrite (IH endpoints (warnings ++ [warningFor filePath p])%list st'),
        (IH [] [warningFor filePath p] st').
      destruct (runMatched rest filePath content [] [] st') as [[e0 w0] s2].
      rewrite <- app_assoc. reflexivity.
Qed.

Lemma scanFiles_shift (plugins : list (FrameworkPlugin S)) (files : list (string * string))
    (endpoints : list EndpointInfo) (warnings : list string) (st : S) :
  scanFiles plugins files endpoints warnings st
  = match scanFiles plugins files [] [] st with
    | (Return (e0, w0), st') => (Return ((endpoints ++ e0)%list, (warnings ++ w0)%list), st')
    | (Throw, st') => (Throw, st')
    end.
Proof.
  revert endpoints warnings st.
  induction files as [| [filePath content] rest IH]; intros endpoints warnings st; cbn.
  - rewrite !app_nil_r. reflexivity.
  - destruct (filterMatching plugins filePath content st) as [[matched |] s1]; [| reflexivity].
    destruct (length matched =? 0); [apply IH |].
    rewrite (runMatched_shift matched filePath content endpoints warnings s1).
    destruct (runMatched matched filePath content [] [] s1) as [[e1 w1] s2].
    rewrite (IH (endpoints ++ e1)%list (warnings ++ w1)%list s2), (IH e1 w1 s2).
    destruct (scanFiles plugins rest [] [] s2) as [[[e0 w0] |] s3]; [| reflexivity].
    rewrite !app_assoc. reflexivity.
Qed.

(** Scanning a tree in two parts.  The endpoints and the warnings of a
    scan of [files1 ++ files2] are those of a scan of [files1] followed by
    those of a scan of [files2] started in the state the first scan
    left. *)
Theorem scan_of_concatenated_trees :
  forall (plugins : list (FrameworkPlugin S)) (files1 files2 : list (string * string))
         (now root : string) (st : S) (d1 d2 : ScanResult) (st1 st2 : S),
    scanBackendProject now root files1 plugins st = (Return d1, st1) ->
    scanBackendProject now root files2 plugins st1 = (Return d2, st2) ->
    scanBackendProject now root (files1 ++ files2) plugins st
    = (Return (mkScan (Some now) (Some root)
                 (endpoints d1 ++ endpoints d2)%list
                 (Some (default [] (warnings d1) ++ default [] (warnings d2))%list)),
       st2).
Proof.
  intros plugins files1 files2 now root st d1 d2 st1 st2.
  unfold scanBackendProject. rewrite scanFiles_concat.
  destruct (scanFiles plugins files1 [] [] st) as [[[e1 w1] |] s1] eqn:H1; [| discriminate].
  intros Hd1. injection Hd1 as <- <-.
  rewrite (scanFiles_shift plugins files2 e1 w1 s1).
  destruct (scanFiles plugins files2 [] [] s1) as [[[e2 w2] |] s2] eqn:H2; [| discriminate].
  intros Hd2. injection Hd2 as <- <-. reflexivity.
Qed.
End ScanComposition.

(** ** The built-in plugins *)

Lemma truthy_nonempty (s : string) : Js.truthy s = true -> s <> "".
Proof. unfold Js.truthy. intros H ->. discriminate H. Qed.

Section BuiltinProperties.
Variable JSON_parse : string -> option JsonValue.

Lemma builtin_failures_nil (files : list (string * string)) (st : LastIndex) :
  failures (createDefaultPlugins JSON_parse) files st = [].
Proof.
  destruct (failures (createDefaultPlugins JSON_parse) files st) as [| failure rest] eqn:H;
    [reflexivity |].
  exfalso.
  destruct (failures_sound (createDefaultPlugins JSON_parse) files st failure)
    as (content & s & s' & _ & Hp & _ & Hthrow).
  { rewrite H. left. reflexivity. }
  destruct (builtin_extract_emitted JSON_parse (snd failure) (fst failure) content s' Hp)
    as (eps & s'' & Hex & _).
  rewrite Hex in Hthrow. discriminate.
Qed.


(** *** The shape of an emitted endpoint *)

(** What holds of every documentation parsed: a description, when there
    is one, is not empty, and no parameter has an empty name. *)
Definition docWellFormed (doc : DocBlock) : Prop :=
  doc_description doc <> Some ""
  /\ Forall (fun p => name p <> "") (doc_params doc).

Lemma parseDocBlock_wellFormed (block : option string) (st : LastIndex) :
  docWellFormed (fst (parseDocBlock JSON_parse block st)).
Proof.
  unfold parseDocBlock.
  destruct block as [block |]; [| split; [discriminate | constructor]].
  destruct (negb (Js.truthy block)); [split; [discriminate | constructor] |].
  match goal with
  | |- context [whileExec PARAM_JSDOC block ?b ?f ?acc st] =>
      pose proof (whileExec_invariant (Forall (fun p => name p <> ""))
                    PARAM_JSDOC block b f acc st (List.Forall_nil _)) as Hparams;
      destruct (whileExec PARAM_JSDOC block b f acc st) as [params st1]
  end.
  destruct (exec RESPONSE_EXAMPLE block st1) as [responseMatch st2].
  destruct (exec REQUEST_SCHEMA block st2) as [requestMatch st3].
  cbn [fst doc_description doc_params]. split.
  - destruct (Js.truthy _) eqn:Ht; [| discriminate].
    intros H. injection H as H. apply truthy_nonempty in Ht. contradiction.
  - apply Hparams. intros a acc s Hacc. cbn.
    destruct (Js.truthy (default "" (group a 2))) eqn:Ht; cbn; [| exact Hacc].
    apply Forall_snoc; [exact Hacc |]. cbn. apply truthy_nonempty, Ht.
Qed.

(** The properties of an endpoint pushed by the extractor of the plugin
    named [plugin] for the file [filePath]. *)
Definition stampedBy (plugin filePath : string) (e : EndpointInfo) : Prop :=
  In (method e) HTTP_METHODS
  /\ path e <> ""
  /\ framework e = Some plugin
  /\ sourceFile e = Some filePath
  /\ line e = None
  /\ description e <> Some ""
  /\ Forall (fun p => name p <> "") (parameters e).

Lemma stampedBy_mkRoute (method routePath : string) (doc : DocBlock)
    (plugin filePath : string) :
  In method HTTP_METHODS -> routePath <> "" -> docWellFormed doc ->
  stampedBy plugin filePath (mkRoute method routePath doc plugin filePath).
Proof. intros Hm Hp [Hd Hn]. repeat split; assumption. Qed.

Lemma extractExpressRoutes_stamped (filePath content : string) (st : LastIndex) :
  Forall (stampedBy "express" filePath)
         (fst (extractExpressRoutes JSON_parse filePath content st)).
Proof.
  unfold extractExpressRoutes. apply whileExec_invariant; [constructor |].
  intros a acc s Hacc.
  destruct (supported (methodOf a)) eqn:Hm; cbn [negb orb]; [| exact Hacc].
  destruct (Js.truthy (default "" (group a 2))) eqn:Ht; cbn [negb]; [| exact Hacc].
  pose proof (parseDocBlock_wellFormed (extractDocBlock content (index a)) s) as Hdoc.
  destruct (parseDocBlock JSON_parse (extractDocBlock content (index a)) s) as [doc s'].
  cbn [fst] in *. apply Forall_snoc; [exact Hacc |].
  apply stampedBy_mkRoute; [apply supported_In, Hm | apply truthy_nonempty, Ht | exact Hdoc].
Qed.

Lemma extractFastifyRoutes_stamped (filePath content : string) (st : LastIndex) :
  Forall (stampedBy "fastify" filePath)
         (fst (extractFastifyRoutes JSON_parse filePath content st)).
Proof.
  unfold extractFastifyRoutes. apply whileExec_invariant; [constructor |].
  intros a acc s Hacc.
  destruct (supported (methodOf a)) eqn:Hm; cbn [negb orb]; [| exact Hacc].
  destruct (Js.truthy (default "" (group a 2))) eqn:Ht; cbn [negb]; [| exact Hacc].
  pose proof (parseDocBlock_wellFormed (extractDocBlock content (index a)) s) as Hdoc.
  destruct (parseDocBlock JSON_parse (extractDocBlock content (index a)) s) as [doc s'].
  cbn [fst] in *. apply Forall_snoc; [exact Hacc |].
  apply stampedBy_mkRoute; [apply supported_In, Hm | apply truthy_nonempty, Ht | exact Hdoc].
Qed.

Lemma extractNestRoutes_stamped (filePath content : string) (st : LastIndex) :
  Forall (stampedBy "nestjs" filePath)
         (fst (extractNestRoutes JSON_parse filePath content st)).
Proof.
  unfold extractNestRoutes. apply whileExec_invariant; [constructor |].
  intros a acc s Hacc.
  destruct (supported (methodOf a)) eqn:Hm; cbn [negb]; [| exact Hacc].
  pose proof (parseDocBlock_wellFormed (extractDocBlock content (index a)) s) as Hdoc.
  destruct (parseDocBlock JSON_parse (extractDocBlock content (index a)) s) as [doc s'].
  cbn [fst] in *. apply Forall_snoc; [exact Hacc |].
  apply stampedBy_mkRoute; [apply supported_In, Hm | | exact Hdoc].
  destruct (Js.truthy (default "" (group a 2))) eqn:Ht;
    [apply truthy_nonempty, Ht | discriminate].
Qed.

(** Every endpoint an extractor emits carries the name of its plugin
    and the path of the file it was given, has no line, a path that is
    not empty, a description that is absent or not empty, and parameters
    with names that are not empty. *)
Theorem emitted_endpoints_are_stamped :
  forall (filePath content : string) (st : LastIndex),
    Forall (stampedBy "express" filePath)
           (fst (extractExpressRoutes JSON_parse filePath content st))
    /\ Forall (stampedBy "fastify" filePath)
              (fst (extractFastifyRoutes JSON_parse filePath content st))
    /\ Forall (stampedBy "nestjs" filePath)
              (fst (extractNestRoutes JSON_parse filePath content st)).
Proof.
  intros filePath content st. split; [| split].
  - apply extractExpressRoutes_stamped.
  - apply extractFastifyRoutes_stamped.
  - apply extractNestRoutes_stamped.
Qed.
End BuiltinProperties.

(** ** Where the endpoints of a scan come from *)

Section ScanProvenance.
Context {S : Type}.
Variable Q : string -> string -> EndpointInfo -> Prop.
Variable plugins : list (FrameworkPlugin S).
Hypothesis extractions :
  forall p filePath content s st eps st',
    In p plugins ->
    fst (plugin_match p filePath content s) = Return true ->
    plugin_extract p filePath content st = (Return eps, st') ->
    Forall (Q filePath content) eps.

Definition fromTree (files : list (string * string)) (e : EndpointInfo) : Prop :=
  exists filePath content, In (filePath, content) files /\ Q filePath content e.

Lemma runMatched_fromFile matched filePath content st :
  (forall p, In p matched ->
     In p plugins /\ exists s, fst (plugin_match p filePath content s) = Return true) ->
  Forall (Q filePath content)
    (fst (fst (runMatched matched filePath content [] [] st))).
Proof.
  intros Hin.
  assert (forall acc ws s, Forall (Q filePath content) acc ->
            Forall (Q filePath content)
              (fst (fst (runMatched matched filePath content acc ws s)))) as H.
  { induction matched as [| p rest IH]; intros acc ws s Hacc; cbn; [exact Hacc |].
    destruct (Hin p (or_introl eq_refl)) as (Hp & s0 & Hm).
    destruct (plugin_extract p filePath content s) as [[eps |] s'] eqn:Hex.
    - apply IH; [intros q Hq; apply Hin; right; exact Hq |].
      apply Forall_app. split; [exact Hacc |]. eapply extractions; eassumption.
    - apply IH; [intros q Hq; apply Hin; right; exact Hq | exact Hacc]. }
  apply H. constructor.
Qed.

Lemma scanFiles_fromTree files st eps ws st' :
  scanFiles plugins files [] [] st = (Return (eps, ws), st') ->
  Forall (fromTree files) eps.
Proof.
  revert st eps ws st'.
  induction files as [| [filePath content] rest IH]; intros st eps ws st' H; cbn in H.
  - injection H as <- _ _. constructor.
  - assert (forall e, fromTree rest e -> fromTree ((filePath, content) :: rest) e) as Hweak.
    { intros e (f & c & Hf & Hq). exists f, c. split; [right; exact Hf | exact Hq]. }
    destruct (filterMatching plugins filePath content st) as [[matched |] s1] eqn:Hm;
      [| discriminate].
    destruct (length matched =? 0).
    + eapply List.Forall_impl; [exact Hweak | eapply IH; exact H].
    + pose proof (runMatched_fromFile matched filePath content s1
                    (filterMatching_sound _ _ _ _ _ _ Hm)) as Hr.
      destruct (runMatched matched filePath content [] [] s1) as [[e1 w1] s2].
      rewrite scanFiles_shift in H.
      destruct (scanFiles plugins rest [] [] s2) as [[[e0 w0] |] s3] eqn:Hrest;
        [| discriminate].
      injection H as <- _ _. apply Forall_app. split.
      * eapply List.Forall_impl; [| exact Hr].
        intros e He. exists filePath, content. split; [left; reflexivity | exact He].
      * eapply List.Forall_impl; [exact Hweak | eapply IH; exact Hrest].
Qed.
End ScanProvenance.

(** The applicability test of the plugin named [plugin], as far as it
    depends on the file alone. *)
Definition marked (plugin filePath content : string) : bool :=
  if String.eqb plugin "express" then test EXPRESS_MARKER_REGEX content
  else if String.eqb plugin "fastify" then test FASTIFY_MARKER_REGEX content
  else if String.eqb plugin "nestjs"
       then Js.endsWith ".ts" filePath && test NEST_MARKER_REGEX content
  else false.

Lemma builtin_scanFiles_provenance :
  forall (JSON_parse : string -> option JsonValue)
         (files : list (string * string)) (st s1 : LastIndex)
         (eps : list EndpointInfo) (ws : list string),
    scanFiles (createDefaultPlugins JSON_parse) files [] [] st = (Return (eps, ws), s1) ->
    Forall (fun e =>
              exists plugin filePath content,
                In (filePath, content) files
                /\ stampedBy plugin filePath e
                /\ marked plugin filePath content = true)
           eps.
Proof.
  intros JSON_parse files st s1 eps ws H.
  pose proof (scanFiles_fromTree
                (fun filePath content e =>
                   exists plugin, stampedBy plugin filePath e
                                  /\ marked plugin filePath content = true)
                (createDefaultPlugins JSON_parse)) as Hscan.
  eapply List.Forall_impl; [| eapply Hscan; [| exact H]].
  - intros e (f & c & Hf & plugin & Hst & Hmk). exists plugin, f, c. auto.
  - clear. intros p filePath content s st eps st' Hp Hmatch Hex.
    destruct Hp as [<- | [<- | [<- | []]]];
      cbn [plugin_match plugin_extract expressPlugin fastifyPlugin nestjsPlugin] in *;
      unfold total in *.
    + destruct (test EXPRESS_MARKER_REGEX content) eqn:Hmk.
      2:{ cbn in Hmatch. discriminate. }
      pose proof (extractExpressRoutes_stamped JSON_parse filePath content st) as Hs.
      destruct (extractExpressRoutes JSON_parse filePath content st) as [eps' s'].
      injection Hex as <- _. eapply List.Forall_impl; [| exact Hs].
      intros e He. exists "express". split; [exact He |]. unfold marked. cbn. exact Hmk.
    + destruct (test FASTIFY_MARKER_REGEX content) eqn:Hmk.
      2:{ cbn in Hmatch. discriminate. }
      pose proof (extractFastifyRoutes_stamped JSON_parse filePath content st) as Hs.
      destruct (extractFastifyRoutes JSON_parse filePath content st) as [eps' s'].
      injection Hex as <- _. eapply List.Forall_impl; [| exact Hs].
      intros e He. exists "fastify". split; [exact He |]. unfold marked. cbn. exact Hmk.
    + cbn in Hmatch. injection Hmatch as Hmk.
      pose proof (extractNestRoutes_stamped JSON_parse filePath content st) as Hs.
      destruct (extractNestRoutes JSON_parse filePath content st) as [eps' s'].
      injection Hex as <- _. eapply List.Forall_impl; [| exact Hs].
      intros e He. exists "nestjs". split; [exact He |]. unfold marked. cbn. exact Hmk.
Qed.

(** Every endpoint of a scan with the built-in plugins names a file of
    the tree as its source and one of the three plugins as its framework,
    and that file carries the marker the plugin asks for (for nestjs, the
    [.ts] ending as well). *)
Theorem scan_endpoints_come_from_marked_files :
  forall (JSON_parse : string -> option JsonValue) (now root : string)
         (files : list (string * string)) (st st' : LastIndex) (d : ScanResult),
    scanBackendProject now root files (createDefaultPlugins JSON_parse) st = (Return d, st') ->
    Forall (fun e =>
              exists plugin filePath content,
                In (filePath, content) files
                /\ stampedBy plugin filePath e
                /\ marked plugin filePath content = true)
           (endpoints d).
Proof.
  intros JSON_parse now root files st st' d. unfold scanBackendProject.
  destruct (scanFiles (createDefaultPlugins JSON_parse) files [] [] st)
    as [[[eps ws] |] s1] eqn:H; [| discriminate].
  intros Hd. injection Hd as <- _. cbn [endpoints].
  eapply builtin_scanFiles_provenance. exact H.
Qed.

(** * The state the patterns are left in *)

Lemma sameRegExp_refl (g : GlobalRegExp) : sameRegExp g g = true.
Proof. destruct g; reflexivity. Qed.

(** A [while] loop over [exec] ends on a failed [exec], which puts the
    [lastIndex] of its pattern back to 0. *)
Lemma whileExec_resets {A : Type} (g : GlobalRegExp) (s : string)
    (body : ExecArray -> A -> LastIndex -> A * LastIndex) :
  (forall a acc st, snd (body a acc st) g = st g) ->
  forall fuel acc st,
    String.length s <= fuel + st g ->
    snd (whileExec g s body (Datatypes.S fuel) acc st) g = 0.
Proof.
  intros Hbody fuel.
  induction fuel as [| fuel IH]; intros acc st Hlen;
    cbn [whileExec]; unfold exec, execGlobal;
    destruct (matchFrom (pattern g) s (st g)) as [a |] eqn:Ha;
    try (cbn; unfold setLastIndex; rewrite sameRegExp_refl; reflexivity);
    apply matchFrom_bounds in Ha as (Hfrom & Hend & Hstrict);
    specialize (Hstrict (patterns_consume g)).
  - lia.
  - specialize (Hbody a acc (setLastIndex g (lastEnd a) st)).
    destruct (body a acc (setLastIndex g (lastEnd a) st)) as [acc' st'].
    cbn [snd] in Hbody.
    apply (IH acc' st'). rewrite Hbody. unfold setLastIndex.
    rewrite sameRegExp_refl. lia.
Qed.

(** A property of the state kept by [exec] and by the body is kept by
    the loop. *)
Lemma whileExec_state {A : Type} (I : LastIndex -> Prop) (g : GlobalRegExp) (s : string)
    (body : ExecArray -> A -> LastIndex -> A * LastIndex) :
  (forall st, I st -> I (snd (exec g s st))) ->
  (forall a acc st, I st -> I (snd (body a acc st))) ->
  forall fuel acc st, I st -> I (snd (whileExec g s body fuel acc st)).
Proof.
  intros Hexec Hbody fuel. induction fuel as [| fuel IH]; intros acc st Hst; cbn;
    [exact Hst |].
  specialize (Hexec st Hst). destruct (exec g s st) as [[a |] st']; [| exact Hexec].
  cbn [snd] in Hexec. specialize (Hbody a acc st' Hexec).
  destruct (body a acc st') as [acc' st'']. apply IH. exact Hbody.
Qed.

Section StateProperties.
Variable JSON_parse : string -> option JsonValue.

(** Parsing a block leaves the parameter pattern at 0 if it found it
    there. *)
Lemma parseDocBlock_param_zero (block : option string) (st : LastIndex) :
  st PARAM_JSDOC = 0 -> snd (parseDocBlock JSON_parse block st) PARAM_JSDOC = 0.
Proof.
  intros Hst. unfold parseDocBlock.
  destruct block as [block |]; [| exact Hst].
  destruct (negb (Js.truthy block)); [exact Hst |].
  match goal with
  | |- context [whileExec PARAM_JSDOC block ?b ?f ?acc st] =>
      assert (forall a ps s, snd (b a ps s) PARAM_JSDOC = s PARAM_JSDOC) as Hbody
        by (intros a ps s; cbn;
            destruct (negb (Js.truthy (default "" (group a 2)))); reflexivity);
      pose proof (whileExec_resets PARAM_JSDOC block b Hbody (String.length block) acc st
                    ltac:(lia)) as Hw;
      destruct (whileExec PARAM_JSDOC block b f acc st) as [params st1]
  end.
  cbn [snd] in Hw.
  pose proof (exec_other RESPONSE_EXAMPLE PARAM_JSDOC block st1 eq_refl) as Hr.
  destruct (exec RESPONSE_EXAMPLE block st1) as [responseMatch st2]. cbn [snd] in Hr.
  pose proof (exec_other REQUEST_SCHEMA PARAM_JSDOC block st2 eq_refl) as Hq.
  destruct (exec REQUEST_SCHEMA block st2) as [requestMatch st3]. cbn [snd] in *.
  congruence.
Qed.

(** The response example of a block is found exactly when the response
    pattern is left with a [lastIndex] that is not 0; the next block
    parsed is searched from there. *)
Theorem response_found_iff_lastIndex_left :
  forall (block : string) (st : LastIndex),
    block <> "" ->
    let r := parseDocBlock JSON_parse (Some block) st in
    doc_response (fst r) = Null <-> snd r RESPONSE_EXAMPLE = 0.
Proof.
  intros block st Hne. cbn zeta. unfold parseDocBlock.
  assert (Js.truthy block = true) as ->.
  { unfold Js.truthy. destruct (String.eqb_spec block ""); [contradiction | reflexivity]. }
  cbn [negb].
  destruct (whileExec PARAM_JSDOC block _ _ _ st) as [params st1].
  destruct (exec RESPONSE_EXAMPLE block st1) as [responseMatch st2] eqn:Hexec.
  pose proof (exec_other REQUEST_SCHEMA RESPONSE_EXAMPLE block st2 eq_refl) as Hq.
  destruct (exec REQUEST_SCHEMA block st2) as [requestMatch st3].
  cbn [fst snd doc_response] in *. rewrite Hq.
  unfold exec, execGlobal in Hexec.
  destruct (matchFrom (pattern RESPONSE_EXAMPLE) block (st1 RESPONSE_EXAMPLE)) as [a |] eqn:Ha;
    injection Hexec as <- <-; unfold setLastIndex; cbn.
  - apply matchFrom_bounds in Ha as (_ & _ & Hstrict).
    specialize (Hstrict (patterns_consume RESPONSE_EXAMPLE)).
    split; [discriminate | lia].
  - split; reflexivity.
Qed.

(** The patterns that are looped on until [exec] fails. *)
Definition looped (g : GlobalRegExp) : bool :=
  match g with
  | ROUTE_METHOD | FASTIFY_ROUTE | NEST_DECORATOR | PARAM_JSDOC => true
  | RESPONSE_EXAMPLE | REQUEST_SCHEMA => false
  end.

(** What an extractor with the route pattern [own] does to the state:
    its own pattern ends at 0, and a looped pattern found at 0 is left
    at 0. *)
Definition resetsOwn (own : GlobalRegExp)
    (extract : LastIndex -> list EndpointInfo * LastIndex) : Prop :=
  forall st,
    snd (extract st) own = 0
    /\ forall g, looped g = true -> st g = 0 -> snd (extract st) g = 0.

(** The patterns a body built on [parseDocBlock] leaves as they are in
    the state [s]: the looped ones, the parameter pattern only when it
    is at 0. *)
Definition untouched (g : GlobalRegExp) (s : LastIndex) : Prop :=
  looped g = true /\ (sameRegExp PARAM_JSDOC g = false \/ s g = 0).

Lemma parseDocBlock_untouched (g : GlobalRegExp) (block : option string) (s : LastIndex) :
  untouched g s -> snd (parseDocBlock JSON_parse block s) g = s g.
Proof.
  intros [Hg [Hp | Hz]].
  - destruct g; try discriminate Hg; try discriminate Hp;
      apply parseDocBlock_other; reflexivity.
  - destruct g; try discriminate Hg;
      try (apply parseDocBlock_other; reflexivity).
    rewrite Hz. apply parseDocBlock_param_zero, Hz.
Qed.

Lemma sameRegExp_eq (a b : GlobalRegExp) : sameRegExp a b = true -> a = b.
Proof. destruct a, b; cbn; intros H; try discriminate H; reflexivity. Qed.

Lemma loop_resets (own : GlobalRegExp) (content : string)
    (body : ExecArray -> list EndpointInfo -> LastIndex -> list EndpointInfo * LastIndex) :
  looped own = true -> sameRegExp PARAM_JSDOC own = false ->
  (forall g a acc s, untouched g s -> snd (body a acc s) g = s g) ->
  resetsOwn own (whileExec own content body (Datatypes.S (String.length content)) []).
Proof.
  intros Hown Hparam Hbody st.
  assert (snd (whileExec own content body (Datatypes.S (String.length content)) [] st) own = 0)
    as Hreset.
  { apply whileExec_resets; [| lia].
    intros a acc s. apply Hbody. split; [exact Hown | left; exact Hparam]. }
  split; [exact Hreset |].
  intros g Hg Hst. destruct (sameRegExp own g) eqn:Hsame.
  - apply sameRegExp_eq in Hsame. subst g. exact Hreset.
  - apply (whileExec_state (fun s => s g = 0)); [| | exact Hst].
    + intros s Hs. rewrite exec_other by exact Hsame. exact Hs.
    + intros a acc s Hs. rewrite Hbody; [exact Hs |]. split; [exact Hg | right; exact Hs].
Qed.

Lemma extractExpressRoutes_resets (filePath content : string) :
  resetsOwn ROUTE_METHOD (extractExpressRoutes JSON_parse filePath content).
Proof.
  unfold extractExpressRoutes. apply loop_resets; try reflexivity.
  intros g a acc s Hg. cbn zeta.
  destruct (negb (supported (methodOf a)) || negb (Js.truthy (default "" (group a 2))));
    [reflexivity |].
  pose proof (parseDocBlock_untouched g (extractDocBlock content (index a)) s Hg) as H.
  destruct (parseDocBlock JSON_parse (extractDocBlock content (index a)) s). exact H.
Qed.

Lemma extractFastifyRoutes_resets (filePath content : string) :
  resetsOwn FASTIFY_ROUTE (extractFastifyRoutes JSON_parse filePath content).
Proof.
  unfold extractFastifyRoutes. apply loop_resets; try reflexivity.
  intros g a acc s Hg. cbn zeta.
  destruct (negb (supported (methodOf a)) || negb (Js.truthy (default "" (group a 2))));
    [reflexivity |].
  pose proof (parseDocBlock_untouched g (extractDocBlock content (index a)) s Hg) as H.
  destruct (parseDocBlock JSON_parse (extractDocBlock content (index a)) s). exact H.
Qed.

Lemma extractNestRoutes_resets (filePath content : string) :
  resetsOwn NEST_DECORATOR (extractNestRoutes JSON_parse filePath content).
Proof.
  unfold extractNestRoutes. apply loop_resets; try reflexivity.
  intros g a acc s Hg. cbn zeta.
  destruct (negb (supported (methodOf a))); [reflexivity |].
  pose proof (parseDocBlock_untouched g (extractDocBlock content (index a)) s Hg) as H.
  destruct (parseDocBlock JSON_parse (extractDocBlock content (index a)) s). exact H.
Qed.
End StateProperties.

Section ScanState.
Variable JSON_parse : string -> option JsonValue.

(** All the looped patterns are at 0. *)
Definition loopsAtRest (st : LastIndex) : Prop :=
  forall g, looped g = true -> st g = 0.

(** The route pattern of a built-in plugin. *)
Definition ownPattern (p : FrameworkPlugin LastIndex) : GlobalRegExp :=
  if String.eqb (plugin_name p) "express" then ROUTE_METHOD
  else if String.eqb (plugin_name p) "fastify" then FASTIFY_ROUTE
  else NEST_DECORATOR.

(** Between the applicability tests and the extractions of a file: a
    looped pattern is at 0 unless it is the route pattern of a plugin
    still to run. *)
Definition pending (matched : list (FrameworkPlugin LastIndex)) (st : LastIndex) : Prop :=
  forall g, looped g = true ->
    st g = 0 \/ exists p, In p matched /\ ownPattern p = g.

Lemma builtin_extract_resets (p : FrameworkPlugin LastIndex) (filePath content : string)
    (st : LastIndex) :
  In p (createDefaultPlugins JSON_parse) ->
  exists eps st',
    plugin_extract p filePath content st = (Return eps, st')
    /\ st' (ownPattern p) = 0
    /\ forall g, looped g = true -> st g = 0 -> st' g = 0.
Proof.
  intros [<- | [<- | [<- | []]]];
    cbn [plugin_extract expressPlugin fastifyPlugin nestjsPlugin]; unfold total.
  - destruct (extractExpressRoutes_resets JSON_parse filePath content st) as [H1 H2].
    destruct (extractExpressRoutes JSON_parse filePath content st) as [eps st']. eauto.
  - destruct (extractFastifyRoutes_resets JSON_parse filePath content st) as [H1 H2].
    destruct (extractFastifyRoutes JSON_parse filePath content st) as [eps st']. eauto.
  - destruct (extractNestRoutes_resets JSON_parse filePath content st) as [H1 H2].
    destruct (extractNestRoutes JSON_parse filePath content st) as [eps st']. eauto.
Qed.

Lemma runMatched_rest (matched : list (FrameworkPlugin LastIndex))
    (filePath content : string) (st : LastIndex) :
  (forall p, In p matched -> In p (createDefaultPlugins JSON_parse)) ->
  pending matched st ->
  loopsAtRest (stateAfter matched filePath content st).
Proof.
  unfold stateAfter. revert st.
  induction matched as [| p rest IH]; intros st Hin Hpend; cbn.
  - intros g Hg. destruct (Hpend g Hg) as [H | (p & [] & _)]. exact H.
  - destruct (builtin_extract_resets p filePath content st (Hin p (or_introl eq_refl)))
      as (eps & st' & -> & Hown & Hkeep).
    rewrite runMatched_shift.
    specialize (IH st' (fun q Hq => Hin q (or_intror Hq))).
    destruct (runMatched rest filePath content [] [] st') as [[e0 w0] s2].
    cbn [snd] in *. apply IH.
    intros g Hg. destruct (Hpend g Hg) as [Hz | (q & [<- | Hq] & Hq')].
    + left. apply Hkeep; assumption.
    + left. rewrite <- Hq'. exact Hown.
    + right. exists q. auto.
Qed.

Lemma testGlobal_state (g : GlobalRegExp) (s : string) (st : LastIndex) :
  let r := testGlobal g s st in
  (forall g', sameRegExp g g' = false -> snd r g' = st g')
  /\ (fst r = false -> snd r g = 0).
Proof.
  cbn zeta. unfold testGlobal. pose proof (exec_other g) as Ho.
  unfold exec, execGlobal in *.
  destruct (matchFrom (pattern g) s (st g)) as [a |] eqn:Ha; cbn; split.
  - intros g' Hne. specialize (Ho g' s st Hne). rewrite Ha in Ho. exact Ho.
  - discriminate.
  - intros g' Hne. specialize (Ho g' s st Hne). rewrite Ha in Ho. exact Ho.
  - intros _. unfold setLastIndex. rewrite sameRegExp_refl. reflexivity.
Qed.

Lemma filterMatching_pending (filePath content : string) (st st1 : LastIndex)
    (matched : list (FrameworkPlugin LastIndex)) :
  loopsAtRest st ->
  filterMatching (createDefaultPlugins JSON_parse) filePath content st = (Return matched, st1) ->
  pending matched st1.
Proof.
  intros Hrest. unfold createDefaultPlugins. cbn [filterMatching].
  cbn [plugin_match expressPlugin fastifyPlugin nestjsPlugin]. unfold total.
  set (be := test EXPRESS_MARKER_REGEX content).
  set (bf := test FASTIFY_MARKER_REGEX content).
  assert (exists b1 s1,
            (if be then testGlobal ROUTE_METHOD content st else (false, st)) = (b1, s1)
            /\ (forall g, sameRegExp ROUTE_METHOD g = false -> s1 g = st g)
            /\ (b1 = false -> s1 ROUTE_METHOD = 0)) as (b1 & s1 & -> & Hs1 & Hb1).
  { destruct be.
    - destruct (testGlobal_state ROUTE_METHOD content st) as [H1 H2].
      destruct (testGlobal ROUTE_METHOD content st) as [b s]. eauto.
    - exists false, st. split; [reflexivity |]. split; [reflexivity |].
      intros _. apply Hrest. reflexivity. }
  assert (exists b2 s2,
            (if bf then testGlobal FASTIFY_ROUTE content s1 else (false, s1)) = (b2, s2)
            /\ (forall g, sameRegExp FASTIFY_ROUTE g = false -> s2 g = s1 g)
            /\ (b2 = false -> s2 FASTIFY_ROUTE = 0)) as (b2 & s2 & -> & Hs2 & Hb2).
  { destruct bf.
    - destruct (testGlobal_state FASTIFY_ROUTE content s1) as [H1 H2].
      destruct (testGlobal FASTIFY_ROUTE content s1) as [b s]. eauto.
    - exists false, s1. split; [reflexivity |]. split; [reflexivity |].
      intros _. rewrite Hs1 by reflexivity. apply Hrest. reflexivity. }
  intros H. injection H as <- <-.
  intros g Hg. destruct g; try discriminate Hg.
  - destruct b1.
    + right. exists (expressPlugin JSON_parse). split; [left; reflexivity | reflexivity].
    + left. rewrite Hs2 by reflexivity. apply Hb1. reflexivity.
  - destruct b2.
    + right. exists (fastifyPlugin JSON_parse).
      split; [| reflexivity]. destruct b1; [right; left | left]; reflexivity.
    + left. apply Hb2. reflexivity.
  - left. rewrite Hs2, Hs1 by reflexivity. apply Hrest. reflexivity.
  - left. rewrite Hs2, Hs1 by reflexivity. apply Hrest. reflexivity.
Qed.

Lemma scanFiles_rest (files : list (string * string))
    (endpoints : list EndpointInfo) (warnings : list string) (st st' : LastIndex)
    (r : list EndpointInfo * list string) :
  loopsAtRest st ->
  scanFiles (createDefaultPlugins JSON_parse) files endpoints warnings st = (Return r, st') ->
  loopsAtRest st'.
Proof.
  revert endpoints warnings st.
  induction files as [| [filePath content] rest IH]; intros endpoints warnings st Hst H;
    cbn [scanFiles] in H.
  - injection H as _ <-. exact Hst.
  - destruct (filterMatching (createDefaultPlugins JSON_parse) filePath content st)
      as [[matched |] s1] eqn:Hm; [| discriminate].
    pose proof (filterMatching_pending filePath content st s1 matched Hst Hm) as Hpend.
    pose proof (runMatched_rest matched filePath content s1
                  (fun p Hp => proj1 (filterMatching_sound _ _ _ _ _ _ Hm p Hp)) Hpend)
      as Hafter.
    destruct (Nat.eqb_spec (length matched) 0) as [Hlen | Hlen].
    + destruct matched; [| discriminate]. eapply IH; [| exact H]. exact Hafter.
    + destruct (runMatched_app matched filePath content endpoints warnings s1) as (ex & Hr).
      rewrite Hr in H. eapply IH; [| exact H]. exact Hafter.
Qed.

(** A scan with the built-in plugins that finds the four looped patterns
    (the three route patterns and the parameter pattern) at 0 leaves them
    at 0: between scans only the response and the request-body patterns
    can carry a [lastIndex]. *)
Theorem scan_leaves_looped_patterns_at_rest :
  forall (now root : string) (files : list (string * string)) (st st' : LastIndex)
         (d : ScanResult),
    loopsAtRest st ->
    scanBackendProject now root files (createDefaultPlugins JSON_parse) st = (Return d, st') ->
    loopsAtRest st'.
Proof.
  intros now root files st st' d Hst. unfold scanBackendProject.
  destruct (scanFiles (createDefaultPlugins JSON_parse) files [] [] st)
    as [[[eps ws] |] s1] eqn:H; [| discriminate].
  intros Hd. injection Hd as _ <-. eapply scanFiles_rest; eassumption.
Qed.
End ScanState.

(** ** A test followed by an extraction *)

Lemma test_then_loop {A : Type} (g : GlobalRegExp) (s : string)
    (body : ExecArray -> A -> LastIndex -> A * LastIndex)
    (fuel : nat) (acc : A) (st : LastIndex) (a : ExecArray) :
  st g = 0 ->
  matchFrom (pattern g) s 0 = Some a ->
  matchFrom (pattern g) s (lastEnd a) = None ->
  exists st1,
    testGlobal g s st = (true, st1)
    /\ fst (whileExec g s body (Datatypes.S fuel) acc st1) = acc.
Proof.
  intros Hst Hfirst Hnext. unfold testGlobal, exec, execGlobal. rewrite Hst, Hfirst.
  eexists. split; [reflexivity |].
  cbn [whileExec]. unfold exec, execGlobal, setLastIndex at 1.
  rewrite sameRegExp_refl, Hnext. reflexivity.
Qed.

(** The applicability tests of the express and fastify plugins run
    [test] on the route pattern that their extractors loop on, so the
    extraction starts after the first declaration of the file.  A file
    whose marker is present and that holds one declaration only is
    applicable, and nothing is extracted from it. *)
Theorem lone_declaration_is_not_extracted :
  forall (JSON_parse : string -> option JsonValue) (filePath content : string)
         (st : LastIndex) (a : ExecArray),
    (st ROUTE_METHOD = 0 ->
     test EXPRESS_MARKER_REGEX content = true ->
     matchFrom ROUTE_METHOD_REGEX content 0 = Some a ->
     matchFrom ROUTE_METHOD_REGEX content (lastEnd a) = None ->
     exists st1 st2,
       plugin_match (expressPlugin JSON_parse) filePath content st = (Return true, st1)
       /\ plugin_extract (expressPlugin JSON_parse) filePath content st1 = (Return [], st2))
    /\ (st FASTIFY_ROUTE = 0 ->
        test FASTIFY_MARKER_REGEX content = true ->
        matchFrom FASTIFY_ROUTE_REGEX content 0 = Some a ->
        matchFrom FASTIFY_ROUTE_REGEX content (lastEnd a) = None ->
        exists st1 st2,
          plugin_match (fastifyPlugin JSON_parse) filePath content st = (Return true, st1)
          /\ plugin_extract (fastifyPlugin JSON_parse) filePath content st1 = (Return [], st2)).
Proof.
  intros JSON_parse filePath content st a. split; intros Hst Hmark Hfirst Hnext;
    cbn [plugin_match plugin_extract expressPlugin fastifyPlugin]; unfold total;
    rewrite Hmark.
  - unfold extractExpressRoutes.
    match goal with
    | |- context [whileExec ROUTE_METHOD content ?b ?f ?acc] =>
        destruct (test_then_loop ROUTE_METHOD content b (String.length content) acc st a
                    Hst Hfirst Hnext) as (st1 & -> & Hloop)
    end.
    exists st1. destruct (whileExec ROUTE_METHOD content _ _ _ st1) as [eps st2].
    cbn [fst] in Hloop. subst eps. eauto.
  - unfold extractFastifyRoutes.
    match goal with
    | |- context [whileExec FASTIFY_ROUTE content ?b ?f ?acc] =>
        destruct (test_then_loop FASTIFY_ROUTE content b (String.length content) acc st a
                    Hst Hfirst Hnext) as (st1 & -> & Hloop)
    end.
    exists st1. destruct (whileExec FASTIFY_ROUTE content _ _ _ st1) as [eps st2].
    cbn [fst] in Hloop. subst eps. eauto.
Qed.

(** ** Parameter types, whatever surrounds the keyword *)

Lemma mapString_app (f : ascii -> ascii) (a b : string) :
  Js.mapString f (a +:+ b) = Js.mapString f a +:+ Js.mapString f b.
Proof.
  induction a as [| c a IH]; [reflexivity |].
  change (String c a +:+ b) with (String c (a +:+ b)).
  change (Js.mapString f (String c a) +:+ Js.mapString f b)
    with (String (f c) (Js.mapString f a +:+ Js.mapString f b)).
  cbn [Js.mapString]. f_equal. exact IH.
Qed.

Lemma startsWith_app (p rest : string) : Js.startsWith p (p +:+ rest) = true.
Proof.
  induction p as [| c p IH]; [reflexivity |].
  change (String c p +:+ rest) with (String c (p +:+ rest)).
  cbn [Js.startsWith]. rewrite Ascii.eqb_refl. exact IH.
Qed.

Lemma includes_app (p before after : string) :
  Js.includes p (before +:+ p +:+ after) = true.
Proof.
  induction before as [| c before IH].
  - change ("" +:+ p +:+ after) with (p +:+ after).
    destruct (p +:+ after) eqn:Hs; cbn [Js.includes];
      rewrite <- Hs, startsWith_app; reflexivity.
  - change (String c before +:+ p +:+ after) with (String c (before +:+ p +:+ after)).
    cbn [Js.includes]. rewrite IH. apply orb_true_r.
Qed.

(** A type text that contains the word string, in any letter case and
    with anything around it, is classified as a string. *)
Theorem text_containing_string_is_string :
  forall before word after : string,
    Js.toLowerCase word = "string" ->
    detectParameterType (before +:+ word +:+ after) = TString.
Proof.
  intros before word after Hword. unfold detectParameterType, Js.toLowerCase in *.
  rewrite !mapString_app, Hword, includes_app. reflexivity.
Qed.

(** ** The documentation block of a declaration *)

Lemma substring_length (s : string) (i n : nat) :
  i + n <= String.length s -> String.length (substring i n s) = n.
Proof.
  revert i n. induction s as [| c s IH]; intros i n H; cbn in H.
  - assert (i = 0) by lia. assert (n = 0) by lia. subst. reflexivity.
  - destruct i as [| i]; cbn.
    + destruct n as [| n]; cbn; [reflexivity |]. f_equal. apply IH. lia.
    + apply IH. lia.
Qed.

Lemma startsWith_substring (s : string) (n : nat) :
  Js.startsWith (substring 0 n s) s = true.
Proof.
  revert n. induction s as [| c s IH]; intros n.
  - destruct n; reflexivity.
  - destruct n as [| n]; cbn; [reflexivity |]. rewrite Ascii.eqb_refl. apply IH.
Qed.

Lemma includes_substring (s : string) (i n : nat) :
  i <= String.length s -> Js.includes (substring i n s) s = true.
Proof.
  revert i. induction s as [| c s IH]; intros i H.
  - cbn in H. assert (i = 0) by lia. subst. destruct n; reflexivity.
  - destruct i as [| i].
    + cbn [Js.includes]. rewrite startsWith_substring. reflexivity.
    + cbn [Js.includes]. change (substring (Datatypes.S i) n (String c s)) with (substring i n s).
      rewrite IH by (cbn in H; lia). apply orb_true_r.
Qed.

Lemma slice0_length (s : string) (n : nat) : String.length (Js.slice0 n s) <= n.
Proof.
  unfold Js.slice0. revert n. induction s as [| c s IH]; intros n.
  - destruct n; cbn; lia.
  - destruct n as [| n]; cbn; [lia |]. specialize (IH n). lia.
Qed.

(** The whole match of a successful [exec] is the text between its two
    indices. *)
Lemma matchFrom_whole (r : Regex) (s : string) (from : nat) (a : ExecArray) :
  matchFrom r s from = Some a ->
  group a 0 = Some (substring (index a) (lastEnd a - index a) s).
Proof.
  unfold matchFrom. destruct (String.length s <? from); [discriminate |].
  destruct (search (list_ascii_of_string s) r (String.length s - from) from)
    as [[i y] |]; [| discriminate].
  intros H. injection H as <-. reflexivity.
Qed.

Lemma matchAllGo_In (r : Regex) (s : string) (fuel from : nat) (w : string) :
  In w (matchAllGo r s fuel from) ->
  exists a from', matchFrom r s from' = Some a /\ group a 0 = Some w.
Proof.
  revert from. induction fuel as [| fuel IH]; intros from H; cbn in H; [destruct H |].
  destruct (matchFrom r s from) as [a |] eqn:Ha; [| destruct H].
  destruct (group a 0) as [w0 |] eqn:Hw.
  - destruct H as [<- | H]; [eauto | eapply IH; exact H].
  - eapply IH; exact H.
Qed.

Lemma last_map_Some {A : Type} (l : list A) (x : A) :
  List.last (List.map Some l) None = Some x -> In x l.
Proof.
  induction l as [| y l IH]; cbn; [discriminate |].
  destruct l as [| z l]; cbn in *.
  - intros H. injection H as ->. left. reflexivity.
  - intros H. right. apply IH. exact H.
Qed.

(** The block found for a declaration at [index] is a piece of text,
    never empty, that lies in the part of the file before [index]. *)
Theorem doc_block_lies_before_declaration :
  forall (content : string) (index : nat) (block : string),
    extractDocBlock content index = Some block ->
    block <> ""
    /\ Js.includes block (Js.slice0 index content) = true
    /\ String.length block <= index.
Proof.
  intros content i block. unfold extractDocBlock, matchAll.
  set (upToIndex := Js.slice0 i content).
  destruct (matchAllGo COMMENT_BLOCK_REGEX upToIndex (Datatypes.S (String.length upToIndex)) 0)
    as [| w0 ws] eqn:Hall; [discriminate |].
  intros H. apply last_map_Some in H. rewrite <- Hall in H.
  apply matchAllGo_In in H as (a & from & Ha & Hw).
  pose proof (matchFrom_whole _ _ _ _ Ha) as Hwhole.
  apply matchFrom_bounds in Ha as (_ & Hend & Hstrict).
  specialize (Hstrict eq_refl).
  rewrite Hw in Hwhole. injection Hwhole as ->.
  assert (String.length (substring (index a) (lastEnd a - index a) upToIndex)
          = lastEnd a - index a) as Hlen by (apply substring_length; lia).
  split; [| split].
  - intros Hempty. rewrite Hempty in Hlen. cbn in Hlen. lia.
  - apply includes_substring. lia.
  - rewrite Hlen. pose proof (slice0_length content i). fold upToIndex in H. lia.
Qed.

(** * [readAllFiles]: the files that are scanned

    A directory is the list of its entries, as [readdir] gives them with
    [withFileTypes].  The calls for the sub-directories run concurrently
    in the source, so the order in which their files are appended depends
    on the file system; the files of a directory itself are pushed first,
    in listing order.  The function below appends the sub-directories in
    listing order, which is one of the orders the source can give; the
    properties proved of it are about which paths are listed and do not
    depend on that order. *)

#[local] Unset Elimination Schemes.
Inductive Dirent : Type :=
| FileEntry (name : string)
| DirectoryEntry (name : string) (entries : list Dirent)
| OtherEntry (name : string).
#[local] Set Elimination Schemes.

Fixpoint Dirent_nested_ind (P : Dirent -> Prop)
    (Hfile : forall name, P (FileEntry name))
    (Hdir : forall name entries, List.Forall P entries -> P (DirectoryEntry name entries))
    (Hother : forall name, P (OtherEntry name))
    (entry : Dirent) : P entry :=
  match entry with
  | FileEntry name => Hfile name
  | DirectoryEntry name entries =>
      Hdir name entries
        ((fix all (l : list Dirent) : List.Forall P l :=
            match l with
            | [] => @List.Forall_nil Dirent P
            | x :: r =>
                @List.Forall_cons Dirent P x r
                  (Dirent_nested_ind P Hfile Hdir Hother x) (all r)
            end) entries)
  | OtherEntry name => Hother name
  end.

Definition scannedExtension (fullPath : string) : bool :=
  Js.endsWith ".ts" fullPath || Js.endsWith ".js" fullPath.

Section Collector.
Variable path_join : string -> string -> string.

(** The pushes of the entries that are files. *)
Definition directFiles (rootDir : string) (entries : list Dirent) : list string :=
  List.flat_map
    (fun entry =>
       match entry with
       | FileEntry name =>
           let fullPath := path_join rootDir name in
           if scannedExtension fullPath then [fullPath] else []
       | _ => []
       end) entries.

(** The files under an entry that is a directory. *)
Fixpoint nestedFiles (rootDir : string) (entry : Dirent) : list string :=
  match entry with
  | DirectoryEntry name entries =>
      let fullPath := path_join rootDir name in
      (directFiles fullPath entries ++ List.flat_map (nestedFiles fullPath) entries)%list
  | _ => []
  end.

Definition readAllFiles (rootDir : string) (entries : list Dirent) : list string :=
  (directFiles rootDir entries ++ List.flat_map (nestedFiles rootDir) entries)%list.

(** The paths of the files of a tree that have one of the two
    extensions. *)
Inductive listed : string -> list Dirent -> string -> Prop :=
| listed_here (rootDir : string) (entries : list Dirent) (name : string) :
    In (FileEntry name) entries ->
    scannedExtension (path_join rootDir name) = true ->
    listed rootDir entries (path_join rootDir name)
| listed_below (rootDir : string) (entries sub : list Dirent) (name fullPath : string) :
    In (DirectoryEntry name sub) entries ->
    listed (path_join rootDir name) sub fullPath ->
    listed rootDir entries fullPath.

Lemma directFiles_In (rootDir : string) (entries : list Dirent) (fullPath : string) :
  In fullPath (directFiles rootDir entries) <->
  exists name, In (FileEntry name) entries
               /\ scannedExtension (path_join rootDir name) = true
               /\ fullPath = path_join rootDir name.
Proof.
  unfold directFiles. rewrite in_flat_map. split.
  - intros (entry & Hentry & Hp). destruct entry as [name | name sub | name]; try destruct Hp.
    destruct (scannedExtension (path_join rootDir name)) eqn:Hext; [| destruct Hp].
    destruct Hp as [<- | []]. eauto.
  - intros (name & Hentry & Hext & ->). exists (FileEntry name).
    split; [exact Hentry |]. rewrite Hext. left. reflexivity.
Qed.

Lemma readAllFiles_nested (rootDir name : string) (entries : list Dirent) :
  nestedFiles rootDir (DirectoryEntry name entries)
  = readAllFiles (path_join rootDir name) entries.
Proof. reflexivity. Qed.

Lemma readAllFiles_In_step (rootDir : string) (entries : list Dirent) (fullPath : string) :
  In fullPath (readAllFiles rootDir entries) <->
  (exists name, In (FileEntry name) entries
                /\ scannedExtension (path_join rootDir name) = true
                /\ fullPath = path_join rootDir name)
  \/ (exists name sub, In (DirectoryEntry name sub) entries
                       /\ In fullPath (readAllFiles (path_join rootDir name) sub)).
Proof.
  unfold readAllFiles at 1. rewrite in_app_iff, directFiles_In, in_flat_map.
  split; (intros [H | H]; [left; exact H | right]).
  - destruct H as (entry & Hentry & Hp).
    destruct entry as [name | name sub | name]; try destruct Hp.
    exists name, sub. split; [exact Hentry | exact Hp].
  - destruct H as (name & sub & Hentry & Hp).
    exists (DirectoryEntry name sub). split; [exact Hentry | exact Hp].
Qed.

Lemma nestedFiles_listed (entry : Dirent) :
  forall rootDir name sub fullPath,
    entry = DirectoryEntry name sub ->
    (In fullPath (readAllFiles (path_join rootDir name) sub)
     <-> listed (path_join rootDir name) sub fullPath).
Proof.
  induction entry as [n | n entries IH | n] using Dirent_nested_ind;
    intros rootDir name sub fullPath Heq; try discriminate Heq.
  injection Heq as -> ->.
  rewrite readAllFiles_In_step. rewrite List.Forall_forall in IH. split.
  - intros [(file & Hin & Hext & ->) | (dir & below & Hin & Hp)].
    + apply listed_here; assumption.
    + eapply listed_below; [exact Hin |].
      apply (IH _ Hin (path_join rootDir name) dir below fullPath eq_refl). exact Hp.
  - intros H. inversion H as [r es file Hin Hext | r es below dir p Hin Hp]; subst.
    + left. eauto.
    + right. exists dir, below. split; [exact Hin |].
      apply (IH _ Hin (path_join rootDir name) dir below fullPath eq_refl). exact Hp.
Qed.

Lemma readAllFiles_listed (rootDir : string) (entries : list Dirent) (fullPath : string) :
  In fullPath (readAllFiles rootDir entries) <-> listed rootDir entries fullPath.
Proof.
  rewrite readAllFiles_In_step. split.
  - intros [(file & Hin & Hext & ->) | (dir & below & Hin & Hp)].
    + apply listed_here; assumption.
    + eapply listed_below; [exact Hin |].
      apply (nestedFiles_listed (DirectoryEntry dir below) rootDir dir below fullPath eq_refl).
      exact Hp.
  - intros H. inversion H as [r es file Hin Hext | r es below dir p Hin Hp]; subst.
    + left. eauto.
    + right. exists dir, below. split; [exact Hin |].
      apply (nestedFiles_listed (DirectoryEntry dir below) rootDir dir below fullPath eq_refl).
      exact Hp.
Qed.

Lemma listed_extension (rootDir : string) (entries : list Dirent) (fullPath : string) :
  listed rootDir entries fullPath -> scannedExtension fullPath = true.
Proof. intros H. induction H; assumption. Qed.

(** [readAllFiles] lists exactly the files of the tree, at any depth,
    whose joined path ends in [.ts] or [.js]: every path it returns has
    one of the two endings, no other kind of entry is returned, and no
    such file is left out. *)
Theorem readAllFiles_lists_ts_and_js_files :
  forall (rootDir : string) (entries : list Dirent),
    List.Forall (fun fullPath => scannedExtension fullPath = true)
                (readAllFiles rootDir entries)
    /\ forall fullPath,
         In fullPath (readAllFiles rootDir entries) <-> listed rootDir entries fullPath.
Proof.
  intros rootDir entries. split.
  - apply List.Forall_forall. intros fullPath H.
    apply readAllFiles_listed in H. eapply listed_extension, H.
  - intros fullPath. apply readAllFiles_listed.
Qed.
End Collector.

(** * The scan of a directory *)

Section ScanOfDirectory.
Variable path_join : string -> string -> string.
(** [fs.readFile(filePath, "utf8")] *)
Variable readFile : string -> string.
Variable JSON_parse : string -> option JsonValue.

(** [scanBackendProject(rootDir)] on the directory [entries]: the files
    are those of [readAllFiles], each with its text. *)
Definition scanDirectory (now rootDir : string) (entries : list Dirent) (st : LastIndex)
  : Completion ScanResult * LastIndex :=
  scanBackendProject now rootDir
    (List.map (fun filePath => (filePath, readFile filePath))
              (readAllFiles path_join rootDir entries))
    (createDefaultPlugins JSON_parse) st.

(** The source file of every endpoint of a scan of a directory is a
    file of that directory, at some depth, whose path ends in [.ts] or
    [.js]; an endpoint of the nestjs plugin comes from a [.ts] file. *)
Theorem sources_are_ts_or_js_files_of_the_directory :
  forall (now rootDir : string) (entries : list Dirent) (st st' : LastIndex)
         (d : ScanResult),
    scanDirectory now rootDir entries st = (Return d, st') ->
    Forall (fun e =>
              exists filePath,
                sourceFile e = Some filePath
                /\ listed path_join rootDir entries filePath
                /\ scannedExtension filePath = true
                /\ (framework e = Some "nestjs" -> Js.endsWith ".ts" filePath = true))
           (endpoints d).
Proof.
  intros now rootDir entries st st' d. unfold scanDirectory, scanBackendProject.
  destruct (scanFiles (createDefaultPlugins JSON_parse) _ [] [] st)
    as [[[eps ws] |] s1] eqn:H; [| discriminate].
  intros Hd. injection Hd as <- _. cbn [endpoints].
  apply builtin_scanFiles_provenance in H.
  eapply List.Forall_impl; [| exact H].
  intros e (plugin & filePath & content & Hin & Hst & Hmk).
  apply in_map_iff in Hin as (f & Heq & Hf). injection Heq as -> _.
  apply readAllFiles_listed in Hf.
  destruct Hst as (_ & _ & Hfw & Hsrc & _).
  exists filePath. split; [exact Hsrc |]. split; [exact Hf |].
  split; [eapply listed_extension, Hf |].
  intros Hnest. rewrite Hfw in Hnest. injection Hnest as ->.
  unfold marked in Hmk. cbn in Hmk. apply andb_true_iff in Hmk as [Hts _]. exact Hts.
Qed.
End ScanOfDirectory.

(** * The further properties on concrete inputs *)

Definition usersEndpoint (text : string) : EndpointInfo :=
  mkEndpoint "POST" "users" (Some text) [mkParameter "name" TString true]
    (Some (JObject [("schema", JString "name: string")])) (Some Null)
    (Some "nestjs") (Some "/p/b.controller.ts") None.

Definition scanBefore : ScanResult :=
  mkScan (Some "t1") (Some "/p")
    [healthIn "/p/a.controller.ts"; usersEndpoint "Create user"] (Some []).

Definition scanAfter : ScanResult :=
  mkScan (Some "t2") (Some "/p")
    [healthIn "/p/a.controller.ts"; usersEndpoint "Create a user"] (Some []).

Definition scanAfterReordered : ScanResult :=
  mkScan (Some "t2") (Some "/p")
    [usersEndpoint "Create a user"; healthIn "/p/a.controller.ts"] (Some []).

Definition snapshotOf (d : ScanResult) : FileSystem :=
  <[snapshotPath joinPath "/p" := d]> ∅.

Lemma no_history_reports_no_unchanged_witness :
  (incremental (mkOptions "/p" (Some true)) <> Some true
   \/ readExisting (snapshotPath joinPath (opt_rootDir (mkOptions "/p" (Some true)))) ∅ = None)
  /\ endpointsUnchanged
       (fst (writeOutputJson joinPath scanBefore (mkOptions "/p" (Some true)) ∅)) = 0.
Proof.
  split; [right; apply lookup_empty |].
  apply (no_history_reports_no_unchanged joinPath scanBefore (mkOptions "/p" (Some true)) ∅).
  right. apply lookup_empty.
Defined.

Lemma unchanged_counts_against_last_of_key_witness :
  readExisting (snapshotPath joinPath "/p") (snapshotOf collidingScan) = Some collidingScan
  /\ endpointsUnchanged
       (fst (writeOutputJson joinPath scanBefore (mkOptions "/p" (Some true))
               (snapshotOf collidingScan)))
     = length (List.filter (unchangedAgainst (endpoints collidingScan)) (endpoints scanBefore)).
Proof.
  split; [apply lookup_insert_eq |].
  apply (unchanged_counts_against_last_of_key joinPath scanBefore collidingScan "/p").
  apply lookup_insert_eq.
Defined.

Lemma endpointKey_determines_method_and_path_witness :
  In (method (healthIn "/p/a.ts")) HTTP_METHODS
  /\ In (method (healthIn "/p/b.ts")) HTTP_METHODS
  /\ endpointKey (healthIn "/p/a.ts") = endpointKey (healthIn "/p/b.ts")
  /\ method (healthIn "/p/a.ts") = method (healthIn "/p/b.ts")
  /\ path (healthIn "/p/a.ts") = path (healthIn "/p/b.ts").
Proof.
  split; [left; reflexivity |]. split; [left; reflexivity |]. split; [reflexivity |].
  apply (endpointKey_determines_method_and_path (healthIn "/p/a.ts") (healthIn "/p/b.ts"));
    [left; reflexivity | left; reflexivity | reflexivity].
Defined.

Lemma scanBefore_keys_distinct : List.NoDup (List.map endpointKey (endpoints scanBefore)).
Proof.
  cbn. constructor; [| constructor; [intros [] | constructor]].
  intros [H | []]. vm_compute in H. discriminate H.
Qed.

Lemma usersEndpoint_changed :
  normalizeForCompare (usersEndpoint "Create a user")
  <> normalizeForCompare (usersEndpoint "Create user").
Proof. intros H. vm_compute in H. discriminate H. Qed.

Lemma one_changed_endpoint_is_not_counted_witness :
  endpoints scanBefore
    = ([healthIn "/p/a.controller.ts"] ++ usersEndpoint "Create user" :: [])%list
  /\ endpoints scanAfter
     = ([healthIn "/p/a.controller.ts"] ++ usersEndpoint "Create a user" :: [])%list
  /\ List.NoDup (List.map endpointKey (endpoints scanBefore))
  /\ endpointKey (usersEndpoint "Create a user") = endpointKey (usersEndpoint "Create user")
  /\ normalizeForCompare (usersEndpoint "Create a user")
     <> normalizeForCompare (usersEndpoint "Create user")
  /\ readExisting (snapshotPath joinPath "/p") (snapshotOf scanBefore) = Some scanBefore
  /\ (let r := fst (writeOutputJson joinPath scanAfter (mkOptions "/p" (Some true))
                      (snapshotOf scanBefore)) in
      endpointsUnchanged r = 1 + 0 /\ endpointsWritten r = Datatypes.S (1 + 0)).
Proof.
  split; [reflexivity |]. split; [reflexivity |].
  split; [exact scanBefore_keys_distinct |]. split; [reflexivity |].
  split; [exact usersEndpoint_changed |]. split; [apply lookup_insert_eq |].
  apply (one_changed_endpoint_is_not_counted joinPath
           [healthIn "/p/a.controller.ts"] []
           (usersEndpoint "Create user") (usersEndpoint "Create a user")
           scanBefore scanAfter "/p" (snapshotOf scanBefore)).
  - reflexivity.
  - reflexivity.
  - exact scanBefore_keys_distinct.
  - reflexivity.
  - exact usersEndpoint_changed.
  - apply lookup_insert_eq.
Defined.

Lemma counts_ignore_order_of_new_scan_witness :
  Permutation (endpoints scanAfter) (endpoints scanAfterReordered)
  /\ (let r := fst (writeOutputJson joinPath scanAfter (mkOptions "/p" (Some true))
                      (snapshotOf scanBefore)) in
      let r' := fst (writeOutputJson joinPath scanAfterReordered (mkOptions "/p" (Some true))
                       (snapshotOf scanBefore)) in
      endpointsUnchanged r = endpointsUnchanged r'
      /\ endpointsWritten r = endpointsWritten r').
Proof.
  split; [apply perm_swap |].
  apply (counts_ignore_order_of_new_scan joinPath scanAfter scanAfterReordered
           (mkOptions "/p" (Some true)) (snapshotOf scanBefore)).
  apply perm_swap.
Defined.

Lemma scan_of_concatenated_trees_witness :
  scanBackendProject "t" "/p" [("/p/a.ts", "x")] [throwingPlugin; healthPlugin] tt
    = (Return (mkScan (Some "t") (Some "/p") [healthIn "/p/a.ts"]
                 (Some ["Failed to parse /p/a.ts with boom"])), tt)
  /\ scanBackendProject "t" "/p" [("/p/b.js", "y")] [throwingPlugin; healthPlugin] tt
     = (Return (mkScan (Some "t") (Some "/p") []
                  (Some ["Failed to parse /p/b.js with boom"])), tt)
  /\ scanBackendProject "t" "/p" ([("/p/a.ts", "x")] ++ [("/p/b.js", "y")])
       [throwingPlugin; healthPlugin] tt
     = (Return (mkScan (Some "t") (Some "/p") ([healthIn "/p/a.ts"] ++ [])%list
                  (Some (["Failed to parse /p/a.ts with boom"]
                         ++ ["Failed to parse /p/b.js with boom"])%list)), tt).
Proof.
  split; [vm_compute; reflexivity |]. split; [vm_compute; reflexivity |].
  apply (scan_of_concatenated_trees [throwingPlugin; healthPlugin]
           [("/p/a.ts", "x")] [("/p/b.js", "y")] "t" "/p" tt
           (mkScan (Some "t") (Some "/p") [healthIn "/p/a.ts"]
              (Some ["Failed to parse /p/a.ts with boom"]))
           (mkScan (Some "t") (Some "/p") []
              (Some ["Failed to parse /p/b.js with boom"])) tt tt);
    vm_compute; reflexivity.
Defined.

Definition controllerTree : list (string * string) :=
  [("/p/a.controller.ts", healthController); ("/p/users.js", usersFile)].

Lemma scan_endpoints_come_from_marked_files_witness :
  exists d st',
    scanBackendProject "t" "/p" controllerTree (createDefaultPlugins Json.parse) fresh
      = (Return d, st')
    /\ Forall (fun e =>
                 exists plugin filePath content,
                   In (filePath, content) controllerTree
                   /\ stampedBy plugin filePath e
                   /\ marked plugin filePath content = true)
              (endpoints d).
Proof.
  destruct (scanBackendProject_returns (createDefaultPlugins Json.parse) controllerTree
              "t" "/p" fresh (builtin_tests_return Json.parse)) as (d & st' & H).
  exists d, st'. split; [exact H |].
  apply (scan_endpoints_come_from_marked_files Json.parse "t" "/p" controllerTree
           fresh st' d H).
Defined.

Lemma fresh_at_rest : loopsAtRest fresh.
Proof. intros g _. reflexivity. Qed.

Lemma scan_leaves_looped_patterns_at_rest_witness :
  loopsAtRest fresh
  /\ exists d st',
      scanBackendProject "t" "/p" controllerTree (createDefaultPlugins Json.parse) fresh
        = (Return d, st')
      /\ loopsAtRest st'.
Proof.
  split; [exact fresh_at_rest |].
  destruct (scanBackendProject_returns (createDefaultPlugins Json.parse) controllerTree
              "t" "/p" fresh (builtin_tests_return Json.parse)) as (d & st' & H).
  exists d, st'. split; [exact H |].
  apply (scan_leaves_looped_patterns_at_rest Json.parse "t" "/p" controllerTree
           fresh st' d fresh_at_rest H).
Defined.

(** The match found, for a text in which there is one. *)
Definition found (o : option ExecArray) : ExecArray :=
  match o with
  | Some a => a
  | None => mkExec 0 0 (fun _ => None)
  end.

Lemma found_Some (o : option ExecArray) : isNone o = false -> o = Some (found o).
Proof. destruct o; [reflexivity | discriminate]. Qed.

Lemma lone_declaration_is_not_extracted_witness :
  let a := found (matchFrom ROUTE_METHOD_REGEX usersFile 0) in
  fresh ROUTE_METHOD = 0
  /\ test EXPRESS_MARKER_REGEX usersFile = true
  /\ matchFrom ROUTE_METHOD_REGEX usersFile 0 = Some a
  /\ matchFrom ROUTE_METHOD_REGEX usersFile (lastEnd a) = None
  /\ exists st1 st2,
       plugin_match (expressPlugin Json.parse) "/p/users.js" usersFile fresh
         = (Return true, st1)
       /\ plugin_extract (expressPlugin Json.parse) "/p/users.js" usersFile st1
          = (Return [], st2).
Proof.
  cbn zeta.
  assert (matchFrom ROUTE_METHOD_REGEX usersFile 0
          = Some (found (matchFrom ROUTE_METHOD_REGEX usersFile 0))) as Hfirst
    by (apply found_Some; vm_compute; reflexivity).
  assert (matchFrom ROUTE_METHOD_REGEX usersFile
            (lastEnd (found (matchFrom ROUTE_METHOD_REGEX usersFile 0))) = None) as Hnext
    by (vm_compute; reflexivity).
  assert (test EXPRESS_MARKER_REGEX usersFile = true) as Hmark by (vm_compute; reflexivity).
  split; [reflexivity |]. split; [exact Hmark |]. split; [exact Hfirst |].
  split; [exact Hnext |].
  apply (proj1 (lone_declaration_is_not_extracted Json.parse "/p/users.js" usersFile fresh
                  (found (matchFrom ROUTE_METHOD_REGEX usersFile 0))));
    [reflexivity | exact Hmark | exact Hfirst | exact Hnext].
Defined.

Lemma text_containing_string_is_string_witness :
  Js.toLowerCase "String" = "string"
  /\ detectParameterType ("Array<" +:+ "String" +:+ ">") = TString.
Proof.
  split; [reflexivity |].
  apply (text_containing_string_is_string "Array<" "String" ">"). reflexivity.
Defined.

Definition createUserBlock : string :=
  "/** Create user @responseExample 500 oops @requestBody name: string */".

Lemma doc_block_lies_before_declaration_witness :
  extractDocBlock twoRoutesFile 127 = Some createUserBlock
  /\ createUserBlock <> ""
  /\ Js.includes createUserBlock (Js.slice0 127 twoRoutesFile) = true
  /\ String.length createUserBlock <= 127.
Proof.
  split; [vm_compute; reflexivity |].
  apply (doc_block_lies_before_declaration twoRoutesFile 127 createUserBlock).
  vm_compute. reflexivity.
Defined.

Lemma response_found_iff_lastIndex_left_witness :
  createUserBlock <> ""
  /\ (let r := parseDocBlock Json.parse (Some createUserBlock) fresh in
      doc_response (fst r) = Null <-> snd r RESPONSE_EXAMPLE = 0).
Proof.
  split; [discriminate |].
  apply (response_found_iff_lastIndex_left Json.parse createUserBlock fresh). discriminate.
Defined.

(** On that block the response example is found and the pattern is left
    inside the block. *)
Example createUserBlock_parsed :
  let r := parseDocBlock Json.parse (Some createUserBlock) fresh in
  doc_response (fst r) = NotNull (mkResponse 500 (JString "oops"))
  /\ snd r RESPONSE_EXAMPLE = 42.
Proof. cbn zeta. split; vm_compute; reflexivity. Qed.

Definition sampleDirectory : list Dirent :=
  [ FileEntry "README.md";
    FileEntry "health.controller.ts";
    DirectoryEntry "src" [FileEntry "routes.js"; FileEntry "routes.js.map"];
    OtherEntry "socket" ].

Definition sampleText (filePath : string) : string :=
  if Js.endsWith ".ts" filePath then healthController else plainFile.

Example sampleDirectory_files :
  readAllFiles joinPath "/p" sampleDirectory
  = ["/p/health.controller.ts"; "/p/src/routes.js"].
Proof. vm_compute. reflexivity. Qed.

Lemma sources_are_ts_or_js_files_of_the_directory_witness :
  exists d st',
    scanDirectory joinPath sampleText Json.parse "t" "/p" sampleDirectory fresh
      = (Return d, st')
    /\ Forall (fun e =>
                 exists filePath,
                   sourceFile e = Some filePath
                   /\ listed joinPath "/p" sampleDirectory filePath
                   /\ scannedExtension filePath = true
                   /\ (framework e = Some "nestjs" -> Js.endsWith ".ts" filePath = true))
              (endpoints d).
Proof.
  unfold scanDirectory.
  destruct (scanBackendProject_returns (createDefaultPlugins Json.parse)
              (List.map (fun filePath => (filePath, sampleText filePath))
                        (readAllFiles joinPath "/p" sampleDirectory))
              "t" "/p" fresh (builtin_tests_return Json.parse)) as (d & st' & H).
  exists d, st'. split; [exact H |].
  apply (sources_are_ts_or_js_files_of_the_directory joinPath sampleText Json.parse
           "t" "/p" sampleDirectory fresh st' d H).
Defined.

Example sampleDirectory_scan :
  endpointsOf (scanDirectory joinPath sampleText Json.parse "t" "/p" sampleDirectory fresh)
  = Some [ healthIn "/p/health.controller.ts";
           mkEndpoint "POST" "/users" None [] (Some JNull) (Some Null)
             (Some "express") (Some "/p/src/routes.js") None ].
Proof. vm_compute. reflexivity. Qed.

(** * [src/cli.ts]: the commands

    A command runs in a process of its own.  The process is modelled by
    its working directory, the project directories it can read, the two
    kinds of file the commands write (snapshots and the configuration
    file, each modelled by the value it denotes), and the lines printed.
    File system faults, which end the command, are not modelled. *)

Record AxeConfig : Type := mkConfig {
  cfg_rootDir : string;
  cfg_outputFile : string;
  cfg_incremental : bool;
  cfg_servePort : nat
}.

(** [Partial<AxeConfig>]: what [JSON.parse] makes of a configuration
    file; a key that the file does not have is [None]. *)
Record PartialConfig : Type := mkPartial {
  has_rootDir : option string;
  has_outputFile : option string;
  has_incremental : option bool;
  has_servePort : option nat
}.

Definition CONFIG_FILE : string := ".zeus-core/config.json".

(** The state the commands work on. *)
Record World : Type := mkWorld {
  snapshots : FileSystem;
  (** the file at [CONFIG_FILE] in the working directory, when it is
      there and parses *)
  configFile : option PartialConfig;
  console : list string
}.

Section Cli.
Variable path_join : string -> string -> string.
(** [path.resolve] of the runtime. *)
Variable path_resolve : string -> string.
(** [process.cwd()] *)
Variable cwd : string.
(** The entries of a project directory, and the text of its files. *)
Variable readdir : string -> list Dirent.
Variable readFile : string -> string.
Variable JSON_parse : string -> option JsonValue.

Definition DEFAULT_CONFIG : AxeConfig :=
  mkConfig cwd ".zeus-core/output.json" true 4173.

(** [{ ...a, ...b }] *)
Definition spread (a : AxeConfig) (b : PartialConfig) : AxeConfig :=
  mkConfig (default (cfg_rootDir a) (has_rootDir b))
           (default (cfg_outputFile a) (has_outputFile b))
           (default (cfg_incremental a) (has_incremental b))
           (default (cfg_servePort a) (has_servePort b)).

(** The configuration as written to the file. *)
Definition allOf (c : AxeConfig) : PartialConfig :=
  mkPartial (Some (cfg_rootDir c)) (Some (cfg_outputFile c))
            (Some (cfg_incremental c)) (Some (cfg_servePort c)).

Definition logInfo (message : string) (w : World) : World :=
  mkWorld (snapshots w) (configFile w) (console w ++ ["[zeus-core] " +:+ message])%list.

Definition writeConfig (config : AxeConfig) (w : World) : World :=
  mkWorld (snapshots w) (Some (allOf config)) (console w).

Definition readConfig (w : World) : AxeConfig :=
  match configFile w with
  | Some raw => spread DEFAULT_CONFIG raw
  | None => DEFAULT_CONFIG
  end.

(** [rootDir ? path.resolve(rootDir) : fallback] *)
Definition resolveRoot (root : option string) (fallback : string) : string :=
  match root with
  | Some r => if Js.truthy r then path_resolve r else fallback
  | None => fallback
  end.

Definition initCommand (rootDir : option string) (w : World) : World :=
  let targetRoot := resolveRoot rootDir cwd in
  let config := mkConfig targetRoot (cfg_outputFile DEFAULT_CONFIG)
                  (cfg_incremental DEFAULT_CONFIG) (cfg_servePort DEFAULT_CONFIG) in
  let w1 := writeConfig config w in
  let w2 := logInfo ("Initialized in " +:+ targetRoot) w1 in
  logInfo ("Config written to " +:+ CONFIG_FILE) w2.

Definition showNumber (n : nat) : string := Json.decimal (N.of_nat n).

Fixpoint logEach (warnings : list string) (w : World) : World :=
  match warnings with
  | [] => w
  | warning :: rest => logEach rest (logInfo ("- " +:+ warning) w)
  end.

(** [generateCommand(options)], run in a module whose patterns are in
    the state [st]. *)
Definition generateCommand (root : option string) (incremental : option bool)
    (now : string) (st : LastIndex) (w : World) : World :=
  let config := readConfig w in
  let rootDir := resolveRoot root (cfg_rootDir config) in
  let incremental := default (cfg_incremental config) incremental in
  let w1 := logInfo ("Scanning " +:+ rootDir +:+ "...") w in
  match scanDirectory path_join readFile JSON_parse now rootDir (readdir rootDir) st with
  | (Throw, _) => w1
  | (Return result, _) =>
      let '(writeResult, fs') :=
        writeOutputJson path_join result (mkOptions rootDir (Some incremental))
          (snapshots w1) in
      let w2 := mkWorld fs' (configFile w1) (console w1) in
      let w3 := logInfo ("Generated " +:+ showNumber (endpointsWritten writeResult)
                         +:+ " endpoints (unchanged: "
                         +:+ showNumber (endpointsUnchanged writeResult) +:+ ")") w2 in
      let w4 := logInfo ("Output written to " +:+ outputPath writeResult) w3 in
      let warnings := default [] (warnings result) in
      if 0 <? length warnings
      then logEach warnings (logInfo ("Warnings: " +:+ showNumber (length warnings)) w4)
      else w4
  end.
End Cli.

Section CliProperties.
Variable path_join : string -> string -> string.
Variable path_resolve : string -> string.
Variable cwd : string.
Variable readdir : string -> list Dirent.
Variable readFile : string -> string.
Variable JSON_parse : string -> option JsonValue.

(** [path.join(rootDir, ".zeus-core", "output.json")] of
    [serveCommand]: joining three segments is joining the first two and
    then the third. *)
Definition servedPath (rootDir : string) : string :=
  path_join (path_join rootDir ".zeus-core") "output.json".

(** The handler of [GET /output.json] that [serveCommand] installs:
    the snapshot read, or [None] for the answer 404. *)
Definition serveCommand (root : option string) (w : World) : option ScanResult :=
  let config := readConfig cwd w in
  let rootDir := resolveRoot path_resolve root (cfg_rootDir config) in
  snapshots w !! servedPath rootDir.

(** The files of a project directory with their text. *)
Definition projectFiles (rootDir : string) : list (string * string) :=
  List.map (fun filePath => (filePath, readFile filePath))
           (readAllFiles path_join rootDir (readdir rootDir)).

(** The endpoints that the built-in plugins find in a project directory
    when the patterns start in the state [st]. *)
Definition projectEndpoints (rootDir : string) (st : LastIndex) : list EndpointInfo :=
  match scanFiles (createDefaultPlugins JSON_parse) (projectFiles rootDir) [] [] st with
  | (Return (endpoints, _), _) => endpoints
  | (Throw, _) => []
  end.

(** The three lines of a run of [generate] that has no warnings. *)
Definition generateLines (rootDir : string) (r : OutputWriteResult) : list string :=
  [ "[zeus-core] Scanning " +:+ rootDir +:+ "...";
    "[zeus-core] Generated " +:+ showNumber (endpointsWritten r)
      +:+ " endpoints (unchanged: " +:+ showNumber (endpointsUnchanged r) +:+ ")";
    "[zeus-core] Output written to " +:+ outputPath r ].

(** What a run of [generate] does: the scan of the built-in plugins
    returns without warnings, its result is written, and three lines
    are printed. *)
Lemma generateCommand_runs (root : option string) (flag : option bool) (now : string)
    (st : LastIndex) (w : World) :
  let rootDir := resolveRoot path_resolve root (cfg_rootDir (readConfig cwd w)) in
  let data := mkScan (Some now) (Some rootDir) (projectEndpoints rootDir st) (Some []) in
  let r := writeOutputJson path_join data
             (mkOptions rootDir (Some (default (cfg_incremental (readConfig cwd w)) flag)))
             (snapshots w) in
  generateCommand path_join path_resolve cwd readdir readFile JSON_parse root flag now st w
  = mkWorld (snd r) (configFile w) (console w ++ generateLines rootDir (fst r))%list.
Proof.
  cbn zeta. unfold generateCommand, scanDirectory, scanBackendProject, projectEndpoints.
  fold (projectFiles (resolveRoot path_resolve root (cfg_rootDir (readConfig cwd w)))).
  destruct (scanFiles_spec (createDefaultPlugins JSON_parse)
              (projectFiles (resolveRoot path_resolve root (cfg_rootDir (readConfig cwd w))))
              [] [] st (builtin_tests_return JSON_parse)) as (ex & st' & ->).
  rewrite builtin_failures_nil. cbn [app List.map logInfo snapshots configFile console].
  destruct (writeOutputJson _ _ _ _) as [r fs'] eqn:Hw.
  cbn [warnings]. unfold default, from_option, id. cbn [length Nat.ltb Nat.leb].
  unfold generateLines, logInfo. cbn [snapshots configFile console fst snd].
  rewrite <- !app_assoc. reflexivity.
Qed.

Lemma resolveRoot_twice (root : option string) (fallback : string) :
  resolveRoot path_resolve root (resolveRoot path_resolve root fallback)
  = resolveRoot path_resolve root fallback.
Proof.
  unfold resolveRoot. destruct root as [r |]; [| reflexivity].
  destruct (Js.truthy r); reflexivity.
Qed.

(** [init] records the root it was given: a [generate] without
    [--root] afterwards does what [generate] with the root of [init]
    does.  Whatever the configuration file held before is replaced:
    only the root is not the default. *)
Theorem generate_after_init_uses_recorded_root :
  forall (root : option string) (flag : option bool) (now : string)
         (st : LastIndex) (w : World),
    let w0 := initCommand path_resolve cwd root w in
    readConfig cwd w0
      = mkConfig (resolveRoot path_resolve root cwd) ".zeus-core/output.json" true 4173
    /\ generateCommand path_join path_resolve cwd readdir readFile JSON_parse
         None flag now st w0
       = generateCommand path_join path_resolve cwd readdir readFile JSON_parse
           root flag now st w0.
Proof.
  intros root flag now st w w0. split; [reflexivity |].
  rewrite !generateCommand_runs.
  assert (Hroot : resolveRoot path_resolve None (cfg_rootDir (readConfig cwd w0))
                  = resolveRoot path_resolve root (cfg_rootDir (readConfig cwd w0))).
  { subst w0. cbn [readConfig initCommand logInfo writeConfig configFile allOf spread
                   has_rootDir cfg_rootDir default from_option id].
    rewrite resolveRoot_twice. reflexivity. }
  rewrite Hroot. reflexivity.
Qed.

(** The snapshot that [generate] writes is the one that [serve] hands
    out for the same root: the scan stamped with the clock and the
    root, with the endpoints found and no warnings. *)
Theorem serve_answers_with_generated_snapshot :
  forall (root : option string) (flag : option bool) (now : string)
         (st : LastIndex) (w : World),
    let rootDir := resolveRoot path_resolve root (cfg_rootDir (readConfig cwd w)) in
    serveCommand root
      (generateCommand path_join path_resolve cwd readdir readFile JSON_parse
         root flag now st w)
    = Some (mkScan (Some now) (Some rootDir) (projectEndpoints rootDir st) (Some [])).
Proof.
  intros root flag now st w rootDir. rewrite generateCommand_runs.
  unfold serveCommand, readConfig. cbn [snapshots configFile]. fold (readConfig cwd w).
  fold rootDir.
  destruct (writeOutputJson_writes path_join
              (mkScan (Some now) (Some rootDir) (projectEndpoints rootDir st) (Some []))
              (mkOptions rootDir (Some (default (cfg_incremental (readConfig cwd w)) flag)))
              (snapshots w)) as (_ & -> & _).
  cbn [opt_rootDir]. unfold servedPath, snapshotPath, OUTPUT_DIR, OUTPUT_FILE.
  apply lookup_insert_eq.
Qed.

End CliProperties.

(** ** The commands on a concrete project *)





(** * What the groups of a match hold *)

(** The pattern has a group numbered [n]. *)
Fixpoint binds (n : nat) (r : Regex) : bool :=
  match r with
  | Seq r1 r2 | Alt r1 r2 => binds n r1 || binds n r2
  | Star _ r1 | LookAhead r1 => binds n r1
  | Group n' r1 => (n =? n') || binds n r1
  | _ => false
  end.

Section Captures.
Variable input : list ascii.
Variable n : nat.

(** A matcher that leaves the capture of group [n] as it finds it. *)
Definition keeps (m1 : Continuation -> MatchState -> option MatchState) : Prop :=
  forall k x z, m1 k x = Some z ->
    exists y, k y = Some z
              /\ lookupCapture n (captures y) = lookupCapture n (captures x).

Lemma repeatMatcher_keeps m1 greedy :
  keeps m1 -> forall fuel, keeps (fun k => repeatMatcher m1 greedy k fuel).
Proof.
  intros Hm1 fuel. induction fuel as [| fuel IH]; intros k x z H; cbn in H.
  - exists x. auto.
  - assert (m1 (fun y => if endIndex y =? endIndex x then None
                         else repeatMatcher m1 greedy k fuel y) x = Some z ->
            exists y, k y = Some z
                      /\ lookupCapture n (captures y) = lookupCapture n (captures x))
      as Hagain.
    { intros Ha. apply Hm1 in Ha as (y & Hy & Hxy).
      destruct (endIndex y =? endIndex x); [discriminate |].
      apply IH in Hy as (y' & Hk & Hyy'). exists y'. split; [exact Hk | congruence]. }
    destruct greedy.
    + destruct (m1 _ x) as [z' |] eqn:Ha; [injection H as ->; auto | eauto].
    + destruct (k x) as [z' |] eqn:Hk; [injection H as ->; eauto | auto].
Qed.

Lemma m_keeps (r : Regex) : binds n r = false -> keeps (m input r).
Proof.
  induction r as [| p | r1 IH1 r2 IH2 | r1 IH1 r2 IH2 | greedy r1 IH1
                 | n' r1 IH1 | r1 IH1 | |]; intros Hb k x z H;
    cbn [m] in H; cbn [binds] in Hb.
  - eauto.
  - destruct (charAt input (endIndex x)) as [c |]; [| discriminate].
    destruct (p c); [| discriminate]. eexists. split; [exact H | reflexivity].
  - apply orb_false_iff in Hb as [Hb1 Hb2].
    apply (IH1 Hb1) in H as (y1 & H & H1). apply (IH2 Hb2) in H as (y & H & H2).
    exists y. split; [exact H | congruence].
  - apply orb_false_iff in Hb as [Hb1 Hb2].
    destruct (m input r1 k x) as [z' |] eqn:H1.
    + injection H as ->. apply (IH1 Hb1) in H1. exact H1.
    + apply (IH2 Hb2) in H. exact H.
  - eapply (repeatMatcher_keeps (m input r1) greedy); [exact (IH1 Hb) | exact H].
  - apply orb_false_iff in Hb as [Hn Hb].
    apply (IH1 Hb) in H as (y & H & Hy).
    eexists. split; [exact H |]. cbn [captures lookupCapture]. rewrite Hn. exact Hy.
  - destruct (m input r1 Some x) as [y |] eqn:H1; [| discriminate].
    apply (IH1 Hb) in H1 as (y' & Hy' & Hc). injection Hy' as ->.
    eexists. split; [exact H | exact Hc].
  - destruct (atBoundary input (endIndex x)); [| discriminate]. eauto.
  - destruct (endIndex x =? 0); [| discriminate]. eauto.
Qed.
End Captures.

(** The text between two positions of a string, character by
    character. *)
Lemma substring_three (s : string) (i : nat) (a b c : ascii) :
  nth_error (list_ascii_of_string s) i = Some a ->
  nth_error (list_ascii_of_string s) (S i) = Some b ->
  nth_error (list_ascii_of_string s) (S (S i)) = Some c ->
  substring i 3 s = String a (String b (String c "")).
Proof.
  revert i. induction s as [| d s IH]; intros i Ha Hb Hc.
  - destruct i; discriminate Ha.
  - destruct i as [| i].
    + cbn in Ha, Hb, Hc. injection Ha as ->.
      destruct s as [| d1 s]; [discriminate Hb |]. cbn in Hb, Hc. injection Hb as ->.
      destruct s as [| d2 s]; [discriminate Hc |]. cbn in Hc. injection Hc as ->.
      cbn. destruct s; reflexivity.
    + cbn in Ha, Hb, Hc. cbn [substring]. apply IH; assumption.
Qed.

Lemma isDigit_code (c : ascii) : Js.isDigit c = true -> 48 <= Js.code c <= 57.
Proof.
  unfold Js.isDigit, Js.between. intros H. apply andb_true_iff in H as [H1 H2].
  apply Nat.leb_le in H1, H2. lia.
Qed.

Lemma Number_three_digits (a b c : ascii) :
  Js.isDigit a = true -> Js.isDigit b = true -> Js.isDigit c = true ->
  Js.Number (String a (String b (String c "")))
  = 100 * (Js.code a - 48) + 10 * (Js.code b - 48) + (Js.code c - 48).
Proof. intros _ _ _. unfold Js.Number. cbn [Js.digitsGo]. lia. Qed.

Lemma m_Seq (input : list ascii) (r1 r2 : Regex) (k : Continuation) (x : MatchState) :
  m input (Seq r1 r2) k x = m input r1 (m input r2 k) x.
Proof. reflexivity. Qed.

(** A group of three digits takes three digits and records where. *)
Lemma m_three_digits (input : list ascii) (g : nat) (k : Continuation) (x z : MatchState) :
  m input (Group g (Seq digit (Seq digit digit))) k x = Some z ->
  exists a b c,
    (nth_error input (endIndex x) = Some a
     /\ nth_error input (S (endIndex x)) = Some b
     /\ nth_error input (S (S (endIndex x))) = Some c)
    /\ (Js.isDigit a = true /\ Js.isDigit b = true /\ Js.isDigit c = true)
    /\ k (mkState (S (S (S (endIndex x))))
            ((g, (endIndex x, S (S (S (endIndex x))))) :: captures x)) = Some z.
Proof.
  unfold digit. cbn [m endIndex captures]. unfold charAt. intros H.
  destruct (nth_error input (endIndex x)) as [a |]; [| discriminate].
  destruct (Js.isDigit a) eqn:Hda; [| discriminate].
  destruct (nth_error input (S (endIndex x))) as [b |]; [| discriminate].
  destruct (Js.isDigit b) eqn:Hdb; [| discriminate].
  destruct (nth_error input (S (S (endIndex x)))) as [c |]; [| discriminate].
  destruct (Js.isDigit c) eqn:Hdc; [| discriminate].
  exists a, b, c. auto.
Qed.

(** Group 1 of a match of the response pattern is three digits. *)
Lemma response_status_digits (block : string) (from : nat) (match_ : ExecArray) :
  matchFrom RESPONSE_EXAMPLE_REGEX block from = Some match_ ->
  exists a b c,
    group match_ 1 = Some (String a (String b (String c "")))
    /\ Js.isDigit a = true /\ Js.isDigit b = true /\ Js.isDigit c = true.
Proof.
  unfold matchFrom. destruct (String.length block <? from); [discriminate |].
  destruct (search (list_ascii_of_string block) RESPONSE_EXAMPLE_REGEX
              (String.length block - from) from) as [[i y] |] eqn:Hs; [| discriminate].
  intros H. injection H as <-. apply search_bounds in Hs as [_ Hm].
  unfold RESPONSE_EXAMPLE_REGEX in Hm. cbn [seq] in Hm.
  rewrite m_Seq in Hm. apply m_reaches in Hm as (y1 & Hm & _).
  rewrite m_Seq in Hm. apply m_reaches in Hm as (y2 & Hm & _).
  rewrite m_Seq in Hm.
  apply m_three_digits in Hm as (a & b & c & (Ha & Hb & Hc) & Hd & Hm).
  apply (m_keeps (list_ascii_of_string block) 1) in Hm as (y3 & Hm & H1); [| reflexivity].
  injection Hm as ->.
  exists a, b, c. split; [| exact Hd].
  cbn [group mkExecArray]. rewrite H1. cbn [captures lookupCapture Nat.eqb].
  f_equal. replace (S (S (S (endIndex y2))) - endIndex y2) with 3 by lia.
  apply substring_three; assumption.
Qed.

Section ResponseStatus.
Variable JSON_parse : string -> option JsonValue.

(** The status of a response, where there is one, is the number that
    three digits denote. *)
Definition statusInRange (found : Nullable ResponseExample) : Prop :=
  match found with
  | NotNull r => status r <= 999
  | Null => True
  end.

Lemma parseDocBlock_status (block : option string) (st : LastIndex) :
  statusInRange (doc_response (fst (parseDocBlock JSON_parse block st))).
Proof.
  unfold parseDocBlock.
  destruct block as [block |]; [| exact I].
  destruct (negb (Js.truthy block)); [exact I |].
  destruct (whileExec PARAM_JSDOC block _ _ _ st) as [params st1].
  destruct (exec RESPONSE_EXAMPLE block st1) as [responseMatch st2] eqn:Hexec.
  destruct (exec REQUEST_SCHEMA block st2) as [requestMatch st3].
  cbn [fst doc_response].
  destruct responseMatch as [a |]; [| exact I].
  unfold exec, execGlobal in Hexec. cbn [pattern] in Hexec.
  destruct (matchFrom RESPONSE_EXAMPLE_REGEX block (st1 RESPONSE_EXAMPLE)) as [a' |] eqn:Ha;
    [| discriminate].
  injection Hexec as -> _.
  apply response_status_digits in Ha as (c1 & c2 & c3 & Hg & H1 & H2 & H3).
  cbn [statusInRange status]. rewrite Hg. cbn [default from_option id].
  unfold default, from_option, id.
  rewrite Number_three_digits by assumption.
  apply isDigit_code in H1, H2, H3. lia.
Qed.

Lemma builtin_extract_docs (Q : DocBlock -> Prop) (p : FrameworkPlugin LastIndex)
    filePath content st eps st' :
  (forall block s, Q (fst (parseDocBlock JSON_parse block s))) ->
  In p (createDefaultPlugins JSON_parse) ->
  plugin_extract p filePath content st = (Return eps, st') ->
  Forall (emitted Q) eps.
Proof.
  intros HQ [<- | [<- | [<- | []]]];
    cbn [plugin_extract expressPlugin fastifyPlugin nestjsPlugin]; unfold total.
  - pose proof (extractExpressRoutes_emitted JSON_parse Q filePath content st
                  (fun _ _ => HQ _ _)) as H.
    destruct (extractExpressRoutes JSON_parse filePath content st) as [e s].
    intros E. injection E as <- _. exact H.
  - pose proof (extractFastifyRoutes_emitted JSON_parse Q filePath content st
                  (fun _ _ => HQ _ _)) as H.
    destruct (extractFastifyRoutes JSON_parse filePath content st) as [e s].
    intros E. injection E as <- _. exact H.
  - pose proof (extractNestRoutes_emitted JSON_parse Q filePath content st
                  (fun _ _ => HQ _ _)) as H.
    destruct (extractNestRoutes JSON_parse filePath content st) as [e s].
    intros E. injection E as <- _. exact H.
Qed.

(** Every endpoint of a scan with the built-in plugins has a response
    that is null or whose status is at most 999: the status is read
    from the three digits that follow the tag. *)
Theorem scanned_status_is_at_most_999 :
  forall (now root : string) (files : list (string * string)) (st : LastIndex),
    exists d st',
      scanBackendProject now root files (createDefaultPlugins JSON_parse) st = (Return d, st')
      /\ Forall (fun e => exists found,
                          response e = Some found /\ statusInRange found)
                (endpoints d).
Proof.
  intros now root files st.
  destruct (scanBackendProject_returns (createDefaultPlugins JSON_parse) files now root st
              (builtin_tests_return JSON_parse)) as (d & st' & Hd).
  exists d, st'. split; [exact Hd |].
  eapply List.Forall_impl;
    [| eapply (scanBackendProject_endpoints
                 (emitted (fun doc => statusInRange (doc_response doc)))
                 (createDefaultPlugins JSON_parse)); [| exact Hd]].
  - intros e (method & routePath & doc & framework & filePath & -> & _ & Hdoc).
    exists (doc_response doc). split; [reflexivity | exact Hdoc].
  - intros p filePath content s eps s' Hp Hex.
    eapply builtin_extract_docs; [| exact Hp | exact Hex].
    intros block s0. apply parseDocBlock_status.
Qed.
End ResponseStatus.
